(** * Conversion of legacy style functions to expressions

    A shallow embedding of [src/mbgl/style/conversion/function.cpp]: the
    converters that turn a stop-based "function" object (camera, source or
    composite) into an expression tree.

    Conventions of the embedding.
    - [optional<X>] together with the [Error&] out-parameter is the type
      [result X]: [Ok x] is a present value, [Failed msg] is an empty
      optional with [error = { msg }] (the source assigns the error exactly
      when it returns nothing), and [AssertionFailed] is a failed [assert]
      (the embedding follows a build in which assertions are enabled).
    - [float] and [double] are exact rationals: the rounding of a number to
      single precision is not part of the model.  [int64_t] is [Z]; the
      conversion from [float] truncates toward zero.
    - [std::map<K, V>] is an association list kept in ascending key order
      by [emplace], which compares keys with [less] only, as [std::map]
      does. *)

From Stdlib Require Import Bool List String Ascii ZArith QArith Lia.
From Stdlib Require Import DecimalString.
From Stdlib Require Import Sorting.Permutation.
Import ListNotations.

Set Warnings "-register-all".
Open Scope string_scope.
Open Scope Q_scope.

(** ** Results: [optional<T>] and the error sink *)

Inductive result (A : Type) : Type :=
| Ok (a : A)
| Failed (error : string)
| AssertionFailed.

Arguments Ok {A} a.
Arguments Failed {A} error.
Arguments AssertionFailed {A}.

Definition bind {A B : Type} (c : result A) (k : A -> result B) : result B :=
  match c with
  | Ok a => k a
  | Failed msg => Failed msg
  | AssertionFailed => AssertionFailed
  end.

Notation "x <- c ;; k" := (bind c (fun x => k))
  (at level 61, c at next level, right associativity).

(** ** Scalar types *)

Definition float : Type := Q.
Definition double : Type := Q.
Definition int64_t : Type := Z.

(** Modelled from the spec: the colour value (util/color.hpp) is not among
    the sources; it holds four float channels. *)
Record Color : Type := mkColor { r : float; g : float; b : float; a : float }.

(** ** The configuration value *)

(** Modelled from the spec: the Convertible value and its read contract
    (object and array inspection, scalar coercion; conversion.hpp and its
    back ends) are not among the sources.  A value is a JSON-like tree; each
    scalar coercion succeeds exactly on the scalar of its own kind. *)
Inductive Convertible : Type :=
| JNull
| JBool (b : bool)
| JNumber (n : double)
| JString (s : string)
| JArray (items : list Convertible)
| JObject (members : list (string * Convertible)).

(** Modelled from the spec: [isObject] of the read contract: the value is an
    object. *)
Definition isObject (value : Convertible) : bool :=
  match value with JObject _ => true | _ => false end.

(** Modelled from the spec: [isArray] of the read contract: the value is an
    array. *)
Definition isArray (value : Convertible) : bool :=
  match value with JArray _ => true | _ => false end.

(** Modelled from the spec: [arrayLength] of the read contract; only arrays
    are asked for their length. *)
Definition arrayLength (value : Convertible) : nat :=
  match value with JArray items => List.length items | _ => 0%nat end.

(** Modelled from the spec: [arrayMember] of the read contract; it is only
    called below the length. *)
Definition arrayMember (value : Convertible) (i : nat) : Convertible :=
  match value with JArray items => nth i items JNull | _ => JNull end.

(** Modelled from the spec: the elements of an array value, in index order.
    The loops of the source that run [i] from [0] to [arrayLength(value)]
    and read [arrayMember(value, i)] recurse over this list. *)
Definition arrayMembers (value : Convertible) : list Convertible :=
  match value with JArray items => items | _ => [] end.

(** Modelled from the spec: the search of an object for a member by name;
    the first member of that name is found. *)
Fixpoint lookupMember (name : string) (members : list (string * Convertible))
  : option Convertible :=
  match members with
  | [] => None
  | (n, v) :: rest => if String.eqb n name then Some v else lookupMember name rest
  end.

(** Modelled from the spec: [objectMember] of the read contract; the source
    calls it on objects only. *)
Definition objectMember (value : Convertible) (name : string) : option Convertible :=
  match value with JObject members => lookupMember name members | _ => None end.

(** Modelled from the spec: [toBool] of the read contract: present on a
    boolean only. *)
Definition toBool (value : Convertible) : option bool :=
  match value with JBool b => Some b | _ => None end.

(** Modelled from the spec: [toNumber] of the read contract: present on a
    number only. *)
Definition toNumber (value : Convertible) : option float :=
  match value with JNumber n => Some n | _ => None end.

(** Modelled from the spec: [toString] of the read contract: present on a
    string only. *)
Definition toString (value : Convertible) : option string :=
  match value with JString s => Some s | _ => None end.

(** Modelled from the spec: [util::toString] (util/string.hpp) is not among
    the sources; on an array length it gives the decimal numeral. *)
Definition util_toString (n : nat) : string :=
  NilEmpty.string_of_uint (Nat.to_uint n).

(** ** Type descriptors *)

Module type.
(** Modelled from the spec: [type::Type] (expression/type.hpp) is not among
    the sources; it is the closed variant of the spec's data model. *)
Inductive t : Type :=
| Null
| Number
| Boolean
| String
| Color
| Object
| Value
| Array (itemType : t) (N : option nat)
| Collator
| Error.

(** Modelled from the spec: the equality of type descriptors. *)
Fixpoint eqb (x y : t) : bool :=
  match x, y with
  | Null, Null | Number, Number | Boolean, Boolean | String, String
  | Color, Color | Object, Object | Value, Value | Collator, Collator
  | Error, Error => true
  | Array i n, Array j m =>
      eqb i j && match n, m with
                 | Some a, Some b => Nat.eqb a b
                 | None, None => true
                 | _, _ => false
                 end
  | _, _ => false
  end.
End type.

(** ** Expression nodes *)

(** Modelled from the spec: [expression::Value] (expression/value.hpp) is
    not among the sources; these are the values a literal is built from
    here. *)
Inductive Value : Type :=
| VDouble (d : double)
| VBool (b : bool)
| VString (s : string)
| VColor (c : Color)
| VVector (items : list Value).

(** Modelled from the spec: the interpolation curves [linear()] and
    [exponential(base)] of the [dsl] are opaque constructors. *)
Inductive Interpolator : Type :=
| linear
| exponential (base : double).

(** Modelled from the spec: the node classes and the [dsl] constructors
    (literal, get, zoom, number, string, boolean, toColor, error, Step,
    Interpolate, Match, Case, ArrayAssertion) are not among the sources.
    They are opaque constructors; a constructor of this type is a node. *)
Inductive Expression : Type :=
| literal (v : Value)
| get (property : Expression)
| zoom
| number (e : Expression)
| string_ (e : Expression)
| boolean (e : Expression)
| toColor (e : Expression)
| error (message : string)
| Step (ty : type.t) (input : Expression) (stops : list (double * Expression))
| Interpolate (ty : type.t) (interpolator : Interpolator) (input : Expression)
              (stops : list (double * Expression))
| MatchInt (ty : type.t) (input : Expression)
           (branches : list (int64_t * Expression)) (otherwise : Expression)
| MatchString (ty : type.t) (input : Expression)
              (branches : list (string * Expression)) (otherwise : Expression)
| Case (ty : type.t) (branches : list (Expression * Expression))
       (otherwise : Expression)
| ArrayAssertion (array : type.t) (input : Expression).

(** ** [std::map]

    Keys are compared with [less] alone; two keys are equivalent when
    neither is less than the other. *)

Class Less (K : Type) : Type := less : K -> K -> bool.

#[global] Instance Less_bool : Less bool := fun x y => negb x && y.
#[global] Instance Less_int64_t : Less int64_t := Z.ltb.
#[global] Instance Less_double : Less double :=
  fun x y => match Qcompare x y with Lt => true | _ => false end.
#[global] Instance Less_float : Less float := Less_double.
#[global] Instance Less_string : Less string := String.ltb.

Definition equiv {K : Type} `{Less K} (x y : K) : bool :=
  negb (less x y) && negb (less y x).

Definition map (K V : Type) : Type := list (K * V).

(** [m.emplace(k, v)]: inserts unless an equivalent key is present. *)
Fixpoint emplace {K V : Type} `{Less K} (k : K) (v : V) (m : map K V) : map K V :=
  match m with
  | [] => [(k, v)]
  | (k', v') :: rest =>
      if less k k' then (k, v) :: m
      else if less k' k then (k', v') :: emplace k v rest
      else m
  end.

(** [m.find(k)], as the mapped value or [None] for [m.end()]: the search
    relies on the ascending order of the keys. *)
Fixpoint find {K V : Type} `{Less K} (k : K) (m : map K V) : option V :=
  match m with
  | [] => None
  | (k', v') :: rest =>
      if less k k' then None
      else if less k' k then find k rest
      else Some v'
  end.

(** [f(m[k])] for an [f] that updates the mapped value in place:
    [operator[]] first inserts a value-initialised entry when the key is absent. *)
Fixpoint subscript {K V : Type} `{Less K} (k : K) (init : V) (f : V -> V)
  (m : map K V) : map K V :=
  match m with
  | [] => [(k, f init)]
  | (k', v') :: rest =>
      if less k k' then (k, f init) :: m
      else if less k' k then (k', v') :: subscript k init f rest
      else (k', f v') :: rest
  end.

(** The comparison of a key type is a strict weak ordering, as [std::map]
    requires of it. *)
Class StrictWeakOrder (K : Type) `{Less K} : Prop := {
  less_irrefl : forall x : K, less x x = false;
  less_trans : forall x y z : K,
    less x y = true -> less y z = true -> less x z = true;
  less_cotrans : forall x y z : K,
    less x y = true -> less x z = true \/ less z y = true
}.

(** Keys strictly ascending, the invariant of a [std::map]. *)
Fixpoint sorted {K V : Type} `{Less K} (m : map K V) : Prop :=
  match m with
  | [] => True
  | (k, _) :: rest => Forall (fun p => less k (fst p) = true) rest /\ sorted rest
  end.

(** [emplace] and [subscript] are two instances of one update: the value
    stored under [k] becomes [g] of what was found there. *)
Fixpoint upsert {K V : Type} `{Less K} (k : K) (g : option V -> V) (m : map K V)
  : map K V :=
  match m with
  | [] => [(k, g None)]
  | (k', v') :: rest =>
      if less k k' then (k, g None) :: m
      else if less k' k then (k', v') :: upsert k g rest
      else (k', g (Some v')) :: rest
  end.

Definition or_else {V : Type} (o : option V) (v : V) : V :=
  match o with Some x => x | None => v end.

(** ** Notions of the specification *)

(** Every element converted in turn; the first failure is the result. *)
Fixpoint mapM {A B : Type} (f : A -> result B) (l : list A) : result (list B) :=
  match l with
  | [] => Ok []
  | x :: rest =>
      y <- f x ;;
      ys <- mapM f rest ;;
      Ok (y :: ys)
  end.

(** The value of the first stop, in the order of the configuration, whose
    key is equivalent to [k]. *)
Fixpoint firstSeen {K V : Type} `{Less K} (k : K) (pairs : list (K * V)) : option V :=
  match pairs with
  | [] => None
  | (k', v) :: rest => if equiv k k' then Some v else firstSeen k rest
  end.

(** First-wins: a stop whose key no earlier stop has is the one the map
    retains for that key, and every later stop with an equivalent key is
    dropped, its key looking up the retained expression. *)
Definition FirstWins {K V : Type} `{Less K} (pairs : list (K * V)) (stops : map K V)
  : Prop :=
  forall l1 k1 e1 l2,
    pairs = (l1 ++ (k1, e1) :: l2)%list ->
    (forall p, In p l1 -> equiv k1 (fst p) = false) ->
    find k1 stops = Some e1 /\
    forall k2 e2, In (k2, e2) l2 -> equiv k1 k2 = true -> find k2 stops = Some e1.

(** The stops emplaced one after the other, in the order of the
    configuration. *)
Definition emplaceAll {K V : Type} `{Less K} (pairs : list (K * V)) (stops : map K V)
  : map K V :=
  fold_left (fun m p => emplace (fst p) (snd p) m) pairs stops.

(** The triples of a composite function filed one after the other. *)
Definition fileAll {T V : Type} `{Less T} (triples : list (float * T * V))
  (map_ : map float (map T V)) : map float (map T V) :=
  fold_left (fun m zdr => let '(z, d, r_) := zdr in subscript z [] (emplace d r_) m)
            triples map_.

(** The stops of a composite function filed under zoom [z], in order. *)
Fixpoint stopsAtZoom {T V : Type} (z : float) (triples : list (float * T * V))
  : list (T * V) :=
  match triples with
  | [] => []
  | (z', d, e) :: rest =>
      if equiv z z' then (d, e) :: stopsAtZoom z rest else stopsAtZoom z rest
  end.

(** The per-zoom buckets of a list of parsed (zoom, inner key, output)
    triples: zooms strictly ascending, a bucket for exactly the zooms that
    occur, and in the bucket of a zoom the stops of that zoom, first-wins. *)
Definition GroupedByZoom {T : Type} `{Less T} (triples : list (float * T * Expression))
  (buckets : map float (map T Expression)) : Prop :=
  sorted buckets /\
  (forall z, find z buckets = None <-> stopsAtZoom z triples = []) /\
  (forall z bucket, find z buckets = Some bucket ->
     sorted bucket /\
     forall d, find d bucket = firstSeen d (stopsAtZoom z triples)).

(** The failures of a stop collection parser [parse] whose loop converts
    each stop with [parseStop]: the missing, the ill-shaped and the empty
    "stops" member, and the first stop that fails. *)
Definition StopCollectionErrors {M P : Type} (parse : Convertible -> result M)
  (parseStop : Convertible -> result P) : Prop :=
  forall value,
    (objectMember value "stops" = None ->
     parse value = Failed "function value must specify stops") /\
    (forall stopsValue, objectMember value "stops" = Some stopsValue ->
       (isArray stopsValue = false ->
        parse value = Failed "function stops must be an array") /\
       (isArray stopsValue = true -> arrayLength stopsValue = 0%nat ->
        parse value = Failed "function must have at least one stop") /\
       (forall before stopValue after parsed,
          isArray stopsValue = true ->
          arrayMembers stopsValue = (before ++ stopValue :: after)%list ->
          mapM parseStop before = Ok parsed ->
          (isArray stopValue = false ->
           parse value = Failed "function stop must be an array") /\
          (isArray stopValue = true -> arrayLength stopValue <> 2%nat ->
           parse value = Failed "function stop must have two elements") /\
          (forall msg, parseStop stopValue = Failed msg ->
           parse value = Failed msg))).

(** ** Converters *)

(** [Converter<T>], called through [convert<T>(value, error)]. *)
Class Converter (T : Type) : Type := convert : Convertible -> result T.

#[global] Typeclasses Opaque float double int64_t.

(** Modelled from the spec: the converter of [bool]
    (conversion/constant.cpp) is not among the sources; it applies the
    coercion of its kind and reports a "value must be ..." message when the
    coercion fails. *)
#[global] Instance Converter_bool : Converter bool := fun value =>
  match toBool value with
  | Some converted => Ok converted
  | None => Failed "value must be a boolean"
  end.

(** Modelled from the spec: the converter of [float]
    (conversion/constant.cpp) is not among the sources; it applies the
    coercion of its kind and reports a "value must be ..." message when the
    coercion fails. *)
#[global] Instance Converter_float : Converter float := fun value =>
  match toNumber value with
  | Some converted => Ok converted
  | None => Failed "value must be a number"
  end.

(** Modelled from the spec: the converter of [std::string]
    (conversion/constant.cpp) is not among the sources; it applies the
    coercion of its kind and reports a "value must be ..." message when the
    coercion fails. *)
#[global] Instance Converter_string : Converter string := fun value =>
  match toString value with
  | Some converted => Ok converted
  | None => Failed "value must be a string"
  end.

(** The conversion of a [float] to [int64_t] truncates toward zero. *)
Definition truncate (x : float) : int64_t := Z.quot (Qnum x) (Zpos (Qden x)).

(** [Converter<double>] of the source: the [float] conversion, widened. *)
#[global] Instance Converter_double : Converter double := fun value =>
  match convert (T := float) value with
  | Ok converted => Ok (converted : double)
  | Failed msg => Failed msg
  | AssertionFailed => AssertionFailed
  end.

(** [Converter<int64_t>] of the source: the [float] conversion, truncated. *)
#[global] Instance Converter_int64_t : Converter int64_t := fun value =>
  match convert (T := float) value with
  | Ok converted => Ok (truncate converted)
  | Failed msg => Failed msg
  | AssertionFailed => AssertionFailed
  end.

Inductive FunctionType : Type :=
| Interval
| Exponential
| Categorical
| Identity
| Invalid.

Definition interpolatable (ty : type.t) : bool :=
  match ty with
  | type.Number => true
  | type.Color => true
  | type.Array itemType N =>
      match N with Some _ => true | None => false end
      && type.eqb itemType type.Number
  | _ => false
  end.

Definition functionType (ty : type.t) (value : Convertible) : FunctionType :=
  match objectMember value "type" with
  | None => if interpolatable ty then Exponential else Interval
  | Some typeValue =>
      match toString typeValue with
      | None => Invalid
      | Some string =>
          if String.eqb string "interval" then Interval
          else if String.eqb string "exponential" && interpolatable ty then Exponential
          else if String.eqb string "categorical" then Categorical
          else if String.eqb string "identity" then Identity
          else Invalid
      end
  end.

(** [Match<T>] exists for the integer and the string keys. *)
Class Matchable (T : Type) : Type :=
  Match : type.t -> Expression -> list (T * Expression) -> Expression -> Expression.

#[global] Instance Matchable_int64_t : Matchable int64_t := MatchInt.
#[global] Instance Matchable_string : Matchable string := MatchString.

(** [step]: a [Step] node. *)
Definition step (ty : type.t) (input : Expression) (stops : map double Expression)
  : Expression :=
  Step ty input stops.

(** Modelled from the spec: [createInterpolate] (expression/interpolate.cpp)
    is not among the sources; it builds the interpolation node for an
    interpolatable type (Number, Color, or fixed-length Number array) and
    returns nothing for any other type. *)
Definition createInterpolate (ty : type.t) (interpolator : Interpolator)
  (input : Expression) (stops : map double Expression) : option Expression :=
  if interpolatable ty then Some (Interpolate ty interpolator input stops) else None.

Definition interpolate (ty : type.t) (interpolator : Interpolator)
  (input : Expression) (stops : map double Expression) : result Expression :=
  match createInterpolate ty interpolator input stops with
  | None => AssertionFailed
  | Some result => Ok result
  end.

(** [categorical<T>]: the branches are copied into the node's unordered map,
    here the list of its entries. *)
Definition categorical {T : Type} `{Matchable T} (ty : type.t) (property : string)
  (branches : map T Expression) : Expression :=
  Match ty (get (literal (VString property))) branches (error "replaced with default").

Definition categorical_bool (ty : type.t) (property : string)
  (branches : map bool Expression) : Expression :=
  let trueCase :=
    match find true branches with
    | None => error "replaced with default"
    | Some e => e
    end in
  let falseCase :=
    match find false branches with
    | None => error "replaced with default"
    | Some e => e
    end in
  let trueBranch := [(get (literal (VString property)), trueCase)] in
  Case ty trueBranch falseCase.

Definition convertBase (value : Convertible) : result double :=
  match objectMember value "base" with
  | None => Ok 1
  | Some baseValue =>
      match toNumber baseValue with
      | None => Failed "function base must be a number"
      | Some base => Ok base
      end
  end.

(** The shapes that [convertCompositeFunctionToExpression] passes on to
    [composite], by the inner domain inferred from the "value" of the first
    stop. *)
Definition compositeShapeSupported (sourceValue : Convertible)
  (shape : FunctionType) : bool :=
  match toBool sourceValue, toNumber sourceValue, toString sourceValue with
  | Some _, _, _ => match shape with Categorical => true | _ => false end
  | None, Some _, _ =>
      match shape with Interval | Exponential | Categorical => true | _ => false end
  | None, None, Some _ => match shape with Categorical => true | _ => false end
  | None, None, None => false
  end.

(** A colour parser that accepts nothing, for the concrete runs below, none
    of which converts a colour. *)
Definition noColor : string -> option Color := fun _ => None.

(** A converter of keys that fails no assertion. *)
Definition KeyConverts (T : Type) `{Converter T} : Prop :=
  forall value, convert (T := T) value <> AssertionFailed.

(** The target types for which [convertLiteral] has a converting arm; of
    the others the source says that no property uses them. *)
Definition literalType (ty : type.t) : bool :=
  match ty with
  | type.Number | type.Boolean | type.String | type.Color => true
  | type.Array type.Number _ | type.Array type.String _ => true
  | _ => false
  end.

(** The keys of the pairs are pairwise inequivalent. *)
Fixpoint distinctKeys {K V : Type} `{Less K} (pairs : list (K * V)) : Prop :=
  match pairs with
  | [] => True
  | p :: rest =>
      Forall (fun q => equiv (fst p) (fst q) = false) rest /\ distinctKeys rest
  end.

(** A step or interpolation node with its input replaced. *)
Definition withInput (input : Expression) (e : Expression) : Expression :=
  match e with
  | Step ty _ stops => Step ty input stops
  | Interpolate ty interpolator _ stops => Interpolate ty interpolator input stops
  | _ => e
  end.

Section Conversion.

(** [Color::parse], the CSS colour parser, is external to this file. *)
Variable parseColor : string -> option Color.

(** Modelled from the spec: the converter of [Color]
    (conversion/constant.cpp) is not among the sources; it coerces the
    value to a string and parses it as a colour. *)
#[local] Instance Converter_Color : Converter Color := fun value =>
  match toString value with
  | None => Failed "value must be a string"
  | Some s =>
      match parseColor s with
      | None => Failed "value must be a valid color"
      | Some color => Ok color
      end
  end.

(** The loop of [convertLiteral] over an array of numbers. *)
Fixpoint convertLiteral_numbers (members : list Convertible) (result_ : list Value)
  : result Expression :=
  match members with
  | [] => Ok (literal (VVector result_))
  | member :: rest =>
      match toNumber member with
      | None => Failed "value must be an array of numbers"
      | Some number_ => convertLiteral_numbers rest (result_ ++ [VDouble number_])%list
      end
  end.

(** The loop of [convertLiteral] over an array of strings. *)
Fixpoint convertLiteral_strings (members : list Convertible) (result_ : list Value)
  : result Expression :=
  match members with
  | [] => Ok (literal (VVector result_))
  | member :: rest =>
      match toString member with
      | None => Failed "value must be an array of strings"
      | Some string => convertLiteral_strings rest (result_ ++ [VString string])%list
      end
  end.

(** The match of [convertLiteral] on the item type of an array target. *)
Definition convertLiteral_items (itemType : type.t) (value : Convertible)
  : result Expression :=
  match itemType with
  | type.Number => convertLiteral_numbers (arrayMembers value) []
  | type.String => convertLiteral_strings (arrayMembers value) []
  | _ => AssertionFailed
  end.

Definition convertLiteral (ty : type.t) (value : Convertible) : result Expression :=
  match ty with
  | type.Number =>
      result_ <- convert (T := float) value ;;
      Ok (literal (VDouble result_))
  | type.Boolean =>
      result_ <- convert (T := bool) value ;;
      Ok (literal (VBool result_))
  | type.String =>
      result_ <- convert (T := string) value ;;
      Ok (literal (VString result_))
  | type.Color =>
      result_ <- convert (T := Color) value ;;
      Ok (literal (VColor result_))
  | type.Array itemType N =>
      if negb (isArray value) then Failed "value must be an array"
      else
        match N with
        | Some n =>
            if negb (Nat.eqb (arrayLength value) n)
            then Failed ("value must be an array of length " ++ util_toString n)
            else convertLiteral_items itemType value
        | None => convertLiteral_items itemType value
        end
  | type.Null => AssertionFailed
  | type.Object => AssertionFailed
  | type.Error => AssertionFailed
  | type.Value => AssertionFailed
  | type.Collator => AssertionFailed
  end.

(** One round of the loop of [convertBranches<T>], up to the insertion:
    the stop is checked and its key and output are converted. *)
Definition convertBranches_stop {T : Type} `{Converter T} (ty : type.t)
  (stopValue : Convertible) : result (T * Expression) :=
  if negb (isArray stopValue) then Failed "function stop must be an array"
  else if negb (Nat.eqb (arrayLength stopValue) 2)
  then Failed "function stop must have two elements"
  else
    t <- convert (T := T) (arrayMember stopValue 0) ;;
    e <- convertLiteral ty (arrayMember stopValue 1) ;;
    Ok (t, e).

(** The loop of [convertBranches<T>], from the map built so far. *)
Fixpoint convertBranches_loop {T : Type} `{Converter T} `{Less T} (ty : type.t)
  (stopValues : list Convertible) (stops : map T Expression)
  : result (map T Expression) :=
  match stopValues with
  | [] => Ok stops
  | stopValue :: rest =>
      te <- convertBranches_stop ty stopValue ;;
      convertBranches_loop ty rest (emplace (fst te) (snd te) stops)
  end.

(** One round of the loop of [convertStops], up to the insertion. *)
Definition convertStops_stop (ty : type.t) (stopValue : Convertible)
  : result (double * Expression) :=
  if negb (isArray stopValue) then Failed "function stop must be an array"
  else if negb (Nat.eqb (arrayLength stopValue) 2)
  then Failed "function stop must have two elements"
  else
    t <- convert (T := float) (arrayMember stopValue 0) ;;
    e <- convertLiteral ty (arrayMember stopValue 1) ;;
    Ok ((t : double), e).

(** The loop of [convertStops], from the map built so far. *)
Fixpoint convertStops_loop (ty : type.t) (stopValues : list Convertible)
  (stops : map double Expression) : result (map double Expression) :=
  match stopValues with
  | [] => Ok stops
  | stopValue :: rest =>
      te <- convertStops_stop ty stopValue ;;
      convertStops_loop ty rest (emplace (fst te) (snd te) stops)
  end.

Definition convertStops (ty : type.t) (value : Convertible)
  : result (map double Expression) :=
  match objectMember value "stops" with
  | None => Failed "function value must specify stops"
  | Some stopsValue =>
      if negb (isArray stopsValue) then Failed "function stops must be an array"
      else if Nat.eqb (arrayLength stopsValue) 0
      then Failed "function must have at least one stop"
      else convertStops_loop ty (arrayMembers stopsValue) []
  end.

Definition convertBranches {T : Type} `{Converter T} `{Less T} (ty : type.t)
  (value : Convertible) : result (map T Expression) :=
  match objectMember value "stops" with
  | None => Failed "function value must specify stops"
  | Some stopsValue =>
      if negb (isArray stopsValue) then Failed "function stops must be an array"
      else if Nat.eqb (arrayLength stopsValue) 0
      then Failed "function must have at least one stop"
      else convertBranches_loop ty (arrayMembers stopsValue) []
  end.

Definition convertIntervalFunction (ty : type.t) (value : Convertible)
  (input : Expression) : result Expression :=
  stops <- convertStops ty value ;;
  Ok (step ty input stops).

Definition convertExponentialFunction (ty : type.t) (value : Convertible)
  (input : Expression) : result Expression :=
  stops <- convertStops ty value ;;
  base <- convertBase value ;;
  interpolate ty (exponential base) input stops.

Definition convertCategoricalFunction (ty : type.t) (value : Convertible)
  (property : string) : result Expression :=
  match objectMember value "stops" with
  | None => Failed "function value must specify stops"
  | Some stopsValue =>
      if negb (isArray stopsValue) then Failed "function stops must be an array"
      else if Nat.eqb (arrayLength stopsValue) 0
      then Failed "function must have at least one stop"
      else
        let first := arrayMember stopsValue 0 in
        if negb (isArray first) then Failed "function stop must be an array"
        else if negb (Nat.eqb (arrayLength first) 2)
        then Failed "function stop must have two elements"
        else
          match toBool (arrayMember first 0) with
          | Some _ =>
              branches <- convertBranches (T := bool) ty value ;;
              Ok (categorical_bool ty property branches)
          | None =>
              match toNumber (arrayMember first 0) with
              | Some _ =>
                  branches <- convertBranches (T := int64_t) ty value ;;
                  Ok (categorical ty property branches)
              | None =>
                  match toString (arrayMember first 0) with
                  | Some _ =>
                      branches <- convertBranches (T := string) ty value ;;
                      Ok (categorical ty property branches)
                  | None =>
                      Failed "stop domain value must be a number, string, or boolean"
                  end
              end
          end
  end.

Definition convertCameraFunctionToExpression (ty : type.t) (value : Convertible)
  : result Expression :=
  if negb (isObject value) then Failed "function must be an object"
  else match functionType ty value with
       | Interval => convertIntervalFunction ty value zoom
       | Exponential => convertExponentialFunction ty value zoom
       | _ => Failed "unsupported function type"
       end.

Definition convertSourceFunctionToExpression (ty : type.t) (value : Convertible)
  : result Expression :=
  if negb (isObject value) then Failed "function must be an object"
  else
    match objectMember value "property" with
    | None => Failed "function must specify property"
    | Some propertyValue =>
        match toString propertyValue with
        | None => Failed "function property must be a string"
        | Some property =>
            match functionType ty value with
            | Interval =>
                convertIntervalFunction ty value
                  (number (get (literal (VString property))))
            | Exponential =>
                convertExponentialFunction ty value
                  (number (get (literal (VString property))))
            | Categorical => convertCategoricalFunction ty value property
            | Identity =>
                match ty with
                | type.String => Ok (string_ (get (literal (VString property))))
                | type.Number => Ok (number (get (literal (VString property))))
                | type.Boolean => Ok (boolean (get (literal (VString property))))
                | type.Color => Ok (toColor (get (literal (VString property))))
                | type.Array _ _ =>
                    Ok (ArrayAssertion ty (get (literal (VString property))))
                | _ => AssertionFailed
                end
            | Invalid => Failed "unsupported function type"
            end
        end
    end.

(** One round of the first loop of [composite<T>], up to the insertion:
    the stop is checked and its zoom, inner key and output are converted. *)
Definition composite_stop {T : Type} `{Converter T} (ty : type.t)
  (stopValue : Convertible) : result (float * T * Expression) :=
  if negb (isArray stopValue) then Failed "function stop must be an array"
  else if negb (Nat.eqb (arrayLength stopValue) 2)
  then Failed "function stop must have two elements"
  else
    let stopInput := arrayMember stopValue 0 in
    if negb (isObject stopInput) then Failed "stop input must be an object"
    else
      match objectMember stopInput "zoom" with
      | None => Failed "stop input must specify zoom"
      | Some zoomValue =>
          match objectMember stopInput "value" with
          | None => Failed "stop input must specify value"
          | Some sourceValue =>
              z <- convert (T := float) zoomValue ;;
              d <- convert (T := T) sourceValue ;;
              r_ <- convertLiteral ty (arrayMember stopValue 1) ;;
              Ok (z, d, r_)
          end
      end.

(** The first loop of [composite<T>]: every stop is filed under its zoom;
    the output is emplaced, under the inner key, into the bucket that the
    subscript of the zoom map gives. *)
Fixpoint composite_loop {T : Type} `{Converter T} `{Less T} (ty : type.t)
  (stopValues : list Convertible) (map_ : map float (map T Expression))
  : result (map float (map T Expression)) :=
  match stopValues with
  | [] => Ok map_
  | stopValue :: rest =>
      zdr <- composite_stop ty stopValue ;;
      let '(z, d, r_) := zdr in
      composite_loop ty rest (subscript z [] (emplace d r_) map_)
  end.

(** The second loop of [composite<T>]: one inner expression per zoom. *)
Fixpoint composite_stops {T : Type} (ty : type.t) (base : double)
  (property : string)
  (makeInnerExpression :
     type.t -> double -> string -> map T Expression -> result Expression)
  (map_ : map float (map T Expression)) (stops : map double Expression)
  : result (map double Expression) :=
  match map_ with
  | [] => Ok stops
  | (z, e) :: rest =>
      inner <- makeInnerExpression ty base property e ;;
      composite_stops ty base property makeInnerExpression rest
        (emplace (z : double) inner stops)
  end.

(** [composite<T>].  The inner builder returns a [result] because the
    builders that interpolate go through the assertion of [interpolate]. *)
Definition composite {T : Type} `{Converter T} `{Less T} (ty : type.t)
  (value : Convertible)
  (makeInnerExpression :
     type.t -> double -> string -> map T Expression -> result Expression)
  : result Expression :=
  match objectMember value "property" with
  | None => Failed "function must specify property"
  | Some propertyValue =>
      base <- convertBase value ;;
      match toString propertyValue with
      | None => Failed "function property must be a string"
      | Some propertyString =>
          match objectMember value "stops" with
          | None => AssertionFailed
          | Some stopsValue =>
              if negb (isArray stopsValue) then AssertionFailed
              else
                map_ <- composite_loop ty (arrayMembers stopsValue) [] ;;
                stops <- composite_stops ty base propertyString
                           makeInnerExpression map_ [] ;;
                if interpolatable ty then interpolate ty linear zoom stops
                else Ok (step ty zoom stops)
          end
      end
  end.

(** The inner builders passed by [convertCompositeFunctionToExpression]. *)
Definition inner_categorical_bool (ty : type.t) (_ : double) (property : string)
  (stops : map bool Expression) : result Expression :=
  Ok (categorical_bool ty property stops).

Definition inner_interval (ty : type.t) (_ : double) (property : string)
  (stops : map double Expression) : result Expression :=
  Ok (step ty (number (get (literal (VString property)))) stops).

Definition inner_exponential (ty : type.t) (base : double) (property : string)
  (stops : map double Expression) : result Expression :=
  interpolate ty (exponential base) (number (get (literal (VString property)))) stops.

Definition inner_categorical {T : Type} `{Matchable T} (ty : type.t) (_ : double)
  (property : string) (stops : map T Expression) : result Expression :=
  Ok (categorical ty property stops).

Definition convertCompositeFunctionToExpression (ty : type.t) (value : Convertible)
  : result Expression :=
  if negb (isObject value) then Failed "function must be an object"
  else
    match objectMember value "stops" with
    | None => Failed "function value must specify stops"
    | Some stopsValue =>
        if negb (isArray stopsValue) then Failed "function stops must be an array"
        else if Nat.eqb (arrayLength stopsValue) 0
        then Failed "function must have at least one stop"
        else
          let first := arrayMember stopsValue 0 in
          if negb (isArray first) then Failed "function stop must be an array"
          else if negb (Nat.eqb (arrayLength first) 2)
          then Failed "function stop must have two elements"
          else
            let stop := arrayMember first 0 in
            if negb (isObject stop) then Failed "stop must be an object"
            else
              match objectMember stop "value" with
              | None => Failed "stop must specify value"
              | Some sourceValue =>
                  match toBool sourceValue with
                  | Some _ =>
                      match functionType ty value with
                      | Categorical =>
                          composite (T := bool) ty value inner_categorical_bool
                      | _ => Failed "unsupported function type"
                      end
                  | None =>
                  match toNumber sourceValue with
                  | Some _ =>
                      match functionType ty value with
                      | Interval =>
                          composite (T := double) ty value inner_interval
                      | Exponential =>
                          composite (T := double) ty value inner_exponential
                      | Categorical =>
                          composite (T := int64_t) ty value inner_categorical
                      | _ => Failed "unsupported function type"
                      end
                  | None =>
                  match toString sourceValue with
                  | Some _ =>
                      match functionType ty value with
                      | Categorical =>
                          composite (T := string) ty value inner_categorical
                      | _ => Failed "unsupported function type"
                      end
                  | None =>
                      Failed "stop domain value must be a number, string, or boolean"
                  end
                  end
                  end
              end
    end.

  (** * Properties *)

(** ** The orderings of the key types *)

Lemma compare_ascii_lt_trans (a b c : ascii) :
  Ascii.compare a b = Lt -> Ascii.compare b c = Lt -> Ascii.compare a c = Lt.
Proof.
  unfold Ascii.compare. rewrite !N.compare_lt_iff. apply N.lt_trans.
Qed.

Lemma compare_string_refl (s : string) : String.compare s s = Eq.
Proof.
  induction s as [|c s IH]; simpl; [reflexivity|].
  unfold Ascii.compare. now rewrite N.compare_refl.
Qed.

Lemma compare_string_lt_trans (x y z : string) :
  String.compare x y = Lt -> String.compare y z = Lt -> String.compare x z = Lt.
Proof.
  revert y z. induction x as [|a x IH]; intros [|b y] [|c z]; simpl; try congruence.
  destruct (Ascii.compare a b) eqn:Hab; try discriminate;
    destruct (Ascii.compare b c) eqn:Hbc; try discriminate; intros Hxy Hyz.
  - apply Ascii.compare_eq_iff in Hab, Hbc. subst.
    unfold Ascii.compare. rewrite N.compare_refl. eauto.
  - apply Ascii.compare_eq_iff in Hab. subst. now rewrite Hbc.
  - apply Ascii.compare_eq_iff in Hbc. subst. now rewrite Hab.
  - now rewrite (compare_ascii_lt_trans _ _ _ Hab Hbc).
Qed.

Lemma compare_string_cotrans (x y z : string) :
  String.compare x y = Lt -> String.compare x z = Lt \/ String.compare z y = Lt.
Proof.
  intros Hxy.
  destruct (String.compare x z) eqn:Hxz; [|now left|].
  - apply String.compare_eq_iff in Hxz. subst. now right.
  - right. rewrite String.compare_antisym in Hxz.
    destruct (String.compare z x) eqn:Hzx; try discriminate.
    eapply compare_string_lt_trans; eassumption.
Qed.

#[global] Instance StrictWeakOrder_bool : StrictWeakOrder bool.
Proof.
  split; unfold less, Less_bool.
  - now intros [].
  - now intros [] [] [].
  - intros [] [] []; simpl; auto.
Qed.

#[global] Instance StrictWeakOrder_int64_t : StrictWeakOrder int64_t.
Proof.
  split; unfold less, Less_int64_t, int64_t.
  - intros x. apply Z.ltb_irrefl.
  - intros x y z. rewrite !Z.ltb_lt. lia.
  - intros x y z. rewrite !Z.ltb_lt. lia.
Qed.

Lemma less_double_lt (x y : double) : less x y = true <-> Qlt x y.
Proof.
  unfold less, Less_double. rewrite Qlt_alt.
  destruct (Qcompare x y); split; congruence.
Qed.

#[global] Instance StrictWeakOrder_double : StrictWeakOrder double.
Proof.
  split.
  - intros x. destruct (less x x) eqn:E; [|reflexivity].
    apply less_double_lt in E. now apply Qlt_irrefl in E.
  - intros x y z. rewrite !less_double_lt. apply Qlt_trans.
  - intros x y z. rewrite !less_double_lt. intros Hxy.
    destruct (Qlt_le_dec x z) as [Hxz|Hzx]; [now left|right].
    eapply Qle_lt_trans; eassumption.
Qed.

#[global] Instance StrictWeakOrder_float : StrictWeakOrder float :=
  StrictWeakOrder_double.

Lemma less_string_lt (x y : string) : less x y = true <-> String.compare x y = Lt.
Proof.
  unfold less, Less_string, String.ltb.
  destruct (String.compare x y); split; congruence.
Qed.

#[global] Instance StrictWeakOrder_string : StrictWeakOrder string.
Proof.
  split.
  - intros x. destruct (less x x) eqn:E; [|reflexivity].
    apply less_string_lt in E. rewrite compare_string_refl in E. discriminate.
  - intros x y z. rewrite !less_string_lt. apply compare_string_lt_trans.
  - intros x y z. rewrite !less_string_lt. apply compare_string_cotrans.
Qed.

(** ** Ordered maps *)

Section MapFacts.

Context {K : Type} `{StrictWeakOrder K}.

Lemma less_asym (x y : K) : less x y = true -> less y x = false.
Proof.
  intros Hxy. destruct (less y x) eqn:Hyx; [|reflexivity].
  pose proof (less_trans _ _ _ Hxy Hyx) as Hxx.
  rewrite less_irrefl in Hxx. discriminate.
Qed.

Lemma equiv_spec (x y : K) :
  equiv x y = true <-> less x y = false /\ less y x = false.
Proof.
  unfold equiv. destruct (less x y), (less y x); simpl; intuition congruence.
Qed.

Lemma equiv_refl (x : K) : equiv x x = true.
Proof. apply equiv_spec. now rewrite less_irrefl. Qed.

Lemma equiv_sym (x y : K) : equiv x y = equiv y x.
Proof. unfold equiv. apply andb_comm. Qed.

Lemma less_equiv_l (x y z : K) :
  equiv x y = true -> less y z = true -> less x z = true.
Proof.
  intros Hxy Hyz. apply equiv_spec in Hxy as [_ Hyx].
  destruct (less_cotrans _ _ x Hyz) as [E|E]; congruence.
Qed.

Lemma less_equiv_r (x y z : K) :
  equiv y z = true -> less x y = true -> less x z = true.
Proof.
  intros Hyz Hxy. apply equiv_spec in Hyz as [_ Hzy].
  destruct (less_cotrans _ _ z Hxy) as [E|E]; congruence.
Qed.

Lemma equiv_trans (x y z : K) :
  equiv x y = true -> equiv y z = true -> equiv x z = true.
Proof.
  intros Hxy Hyz. apply equiv_spec. split.
  - destruct (less x z) eqn:E; [|reflexivity].
    rewrite equiv_sym in Hyz.
    pose proof (less_equiv_r _ _ _ Hyz E) as E'.
    apply equiv_spec in Hxy as [E'' _]. congruence.
  - destruct (less z x) eqn:E; [|reflexivity].
    pose proof (less_equiv_r _ _ _ Hxy E) as E'.
    apply equiv_spec in Hyz as [_ E'']. congruence.
Qed.

Lemma equiv_false_trans (x y z : K) :
  equiv x y = true -> equiv x z = false -> equiv y z = false.
Proof.
  intros Hxy Hxz. destruct (equiv y z) eqn:E; [|reflexivity].
  rewrite (equiv_trans _ _ _ Hxy E) in Hxz. discriminate.
Qed.

Context {V : Type}.

Lemma emplace_upsert (k : K) (v : V) (m : map K V) :
  emplace k v m = upsert k (fun o => or_else o v) m.
Proof.
  induction m as [|[k' v'] rest IH]; simpl; [reflexivity|].
  now rewrite IH.
Qed.

Lemma subscript_upsert (k : K) (init : V) (f : V -> V) (m : map K V) :
  subscript k init f m = upsert k (fun o => f (or_else o init)) m.
Proof.
  induction m as [|[k' v'] rest IH]; simpl; [reflexivity|].
  now rewrite IH.
Qed.

Lemma find_upsert (k k' : K) (g : option V -> V) (m : map K V) :
  find k (upsert k' g m)
  = if equiv k k' then Some (g (find k m)) else find k m.
Proof.
  induction m as [|[k1 v1] rest IH]; simpl.
  - unfold equiv. destruct (less k k'), (less k' k); reflexivity.
  - destruct (less k' k1) eqn:E1; [|destruct (less k1 k') eqn:E2]; simpl.
    + unfold equiv. destruct (less k k') eqn:E3; simpl.
      * now rewrite (less_trans _ _ _ E3 E1).
      * destruct (less k' k) eqn:E4; simpl; [reflexivity|].
        assert (Hk : equiv k k' = true) by (apply equiv_spec; auto).
        now rewrite (less_equiv_l _ _ _ Hk E1).
    + destruct (less k k1) eqn:E3.
      * assert (E4 : less k k' = true) by (eapply less_trans; eassumption).
        unfold equiv. now rewrite E4.
      * destruct (less k1 k) eqn:E4; [apply IH|].
        assert (Hk : equiv k k1 = true) by (apply equiv_spec; auto).
        unfold equiv. now rewrite (less_equiv_l _ _ _ Hk E2).
    + assert (Hk' : equiv k' k1 = true) by (apply equiv_spec; auto).
      destruct (less k k1) eqn:E3.
      * rewrite equiv_sym in Hk'.
        unfold equiv. now rewrite (less_equiv_r _ _ _ Hk' E3).
      * destruct (less k1 k) eqn:E4.
        -- unfold equiv. rewrite (less_equiv_l _ _ _ Hk' E4).
           now rewrite andb_false_r.
        -- assert (Hk : equiv k k1 = true) by (apply equiv_spec; auto).
           rewrite equiv_sym in Hk'.
           now rewrite (equiv_trans _ _ _ Hk Hk').
Qed.

Lemma find_emplace (k k' : K) (v : V) (m : map K V) :
  find k (emplace k' v m)
  = match find k m with
    | Some e => Some e
    | None => if equiv k k' then Some v else None
    end.
Proof.
  rewrite emplace_upsert, find_upsert.
  destruct (equiv k k'), (find k m); reflexivity.
Qed.

Lemma find_equiv (k k' : K) (m : map K V) :
  equiv k k' = true -> find k m = find k' m.
Proof.
  intros Hk. induction m as [|[k1 v1] rest IH]; simpl; [reflexivity|].
  destruct (less k k1) eqn:E1.
  - rewrite equiv_sym in Hk. now rewrite (less_equiv_l _ _ _ Hk E1).
  - destruct (less k' k1) eqn:E2.
    + rewrite (less_equiv_l _ _ _ Hk E2) in E1. discriminate.
    + destruct (less k1 k) eqn:E3.
      * now rewrite (less_equiv_r _ _ _ Hk E3).
      * destruct (less k1 k') eqn:E4; [|reflexivity].
        rewrite equiv_sym in Hk.
        rewrite (less_equiv_r _ _ _ Hk E4) in E3. discriminate.
Qed.

Lemma Forall_upsert (x k : K) (g : option V -> V) (m : map K V) :
  less x k = true ->
  Forall (fun p => less x (fst p) = true) m ->
  Forall (fun p => less x (fst p) = true) (upsert k g m).
Proof.
  intros Hx. induction m as [|[k1 v1] rest IH]; simpl; intros Hall.
  - now constructor.
  - inversion Hall as [|? ? Hk1 Hrest]; subst.
    destruct (less k k1); [|destruct (less k1 k)]; constructor; auto.
Qed.

Lemma sorted_upsert (k : K) (g : option V -> V) (m : map K V) :
  sorted m -> sorted (upsert k g m).
Proof.
  induction m as [|[k1 v1] rest IH]; simpl.
  - intros _. split; [constructor|exact I].
  - intros [Hall Hs].
    destruct (less k k1) eqn:E1; [|destruct (less k1 k) eqn:E2]; simpl.
    + split; [|split; assumption].
      constructor; [exact E1|].
      eapply Forall_impl; [|exact Hall].
      intros p Hp. eapply less_trans; eassumption.
    + split; [|now apply IH]. now apply Forall_upsert.
    + split; assumption.
Qed.

Lemma sorted_emplace (k : K) (v : V) (m : map K V) :
  sorted m -> sorted (emplace k v m).
Proof. rewrite emplace_upsert. apply sorted_upsert. Qed.

(** A key above every key of the map is emplaced at its end. *)
Lemma emplace_last (k : K) (v : V) (m : map K V) :
  Forall (fun p => less (fst p) k = true) m ->
  emplace k v m = (m ++ [(k, v)])%list.
Proof.
  induction m as [|[k1 v1] rest IH]; simpl; intros Hall; [reflexivity|].
  inversion Hall as [|? ? Hk1 Hrest]; subst. simpl in Hk1.
  rewrite (less_asym _ _ Hk1), Hk1. now rewrite IH.
Qed.

Lemma find_emplaceAll (k : K) (pairs : list (K * V)) (stops : map K V) :
  find k (emplaceAll pairs stops)
  = match find k stops with
    | Some e => Some e
    | None => firstSeen k pairs
    end.
Proof.
  unfold emplaceAll.
  revert stops. induction pairs as [|[k' v] rest IH]; intros stops; simpl.
  - now destruct (find k stops).
  - rewrite IH, find_emplace.
    destruct (find k stops); [reflexivity|].
    now destruct (equiv k k').
Qed.

Lemma sorted_emplaceAll (pairs : list (K * V)) (stops : map K V) :
  sorted stops -> sorted (emplaceAll pairs stops).
Proof.
  unfold emplaceAll. revert stops. induction pairs as [|[k' v] rest IH]; intros stops Hs; simpl.
  - exact Hs.
  - apply IH. now apply sorted_emplace.
Qed.

Lemma firstSeen_app_skip (k : K) (l1 l2 : list (K * V)) :
  (forall p, In p l1 -> equiv k (fst p) = false) ->
  firstSeen k (l1 ++ l2)%list = firstSeen k l2.
Proof.
  induction l1 as [|[k' v] rest IH]; simpl; intros Hno; [reflexivity|].
  pose proof (Hno (k', v) (or_introl eq_refl)) as E. simpl in E. rewrite E.
  apply IH. intros p Hp. apply Hno. now right.
Qed.

Lemma firstWins_of_find (pairs : list (K * V)) (stops : map K V) :
  (forall k, find k stops = firstSeen k pairs) -> FirstWins pairs stops.
Proof.
  intros Hfind l1 k1 e1 l2 -> Hno. split.
  - rewrite Hfind, firstSeen_app_skip by assumption.
    simpl. now rewrite equiv_refl.
  - intros k2 e2 _ Hk.
    rewrite <- (find_equiv _ _ stops Hk).
    rewrite Hfind, firstSeen_app_skip by assumption.
    simpl. now rewrite equiv_refl.
Qed.

End MapFacts.

(** ** The loops, as a conversion of every stop followed by the insertions *)

Lemma convertStops_loop_mapM (ty : type.t) (stopValues : list Convertible)
  (stops : map double Expression) :
  convertStops_loop ty stopValues stops
  = pairs <- mapM (convertStops_stop ty) stopValues ;; Ok (emplaceAll pairs stops).
Proof.
  revert stops. induction stopValues as [|sv rest IH]; intros stops; simpl.
  - reflexivity.
  - destruct (convertStops_stop ty sv) as [[t e]| |]; simpl; try reflexivity.
    rewrite IH. now destruct (mapM (convertStops_stop ty) rest).
Qed.

Lemma convertBranches_loop_mapM {T : Type} `{Converter T} `{Less T} (ty : type.t)
  (stopValues : list Convertible) (stops : map T Expression) :
  convertBranches_loop ty stopValues stops
  = pairs <- mapM (convertBranches_stop ty) stopValues ;; Ok (emplaceAll pairs stops).
Proof.
  revert stops. induction stopValues as [|sv rest IH]; intros stops; simpl.
  - reflexivity.
  - destruct (convertBranches_stop ty sv) as [[t e]| |]; simpl; try reflexivity.
    rewrite IH. now destruct (mapM (convertBranches_stop ty) rest).
Qed.

Lemma composite_loop_mapM {T : Type} `{Converter T} `{Less T} (ty : type.t)
  (stopValues : list Convertible) (map_ : map float (map T Expression)) :
  composite_loop ty stopValues map_
  = triples <- mapM (composite_stop ty) stopValues ;; Ok (fileAll triples map_).
Proof.
  revert map_. induction stopValues as [|sv rest IH]; intros map_; simpl.
  - reflexivity.
  - destruct (composite_stop ty sv) as [[[z d] e]| |]; simpl; try reflexivity.
    rewrite IH. now destruct (mapM (composite_stop ty) rest).
Qed.

(** A loop stops at the first stop that fails, with the failure of that stop. *)
Lemma mapM_first_failure {A B : Type} (f : A -> result B) (before : list A) (x : A)
  (after : list A) (parsed : list B) (msg : string) :
  mapM f before = Ok parsed -> f x = Failed msg ->
  mapM f (before ++ x :: after)%list = Failed msg.
Proof.
  revert parsed. induction before as [|y rest IH]; intros parsed; simpl.
  - intros _ ->. reflexivity.
  - destruct (f y); simpl; try discriminate.
    destruct (mapM f rest) eqn:E; simpl; try discriminate.
    intros _ Hx. now rewrite (IH _ eq_refl Hx).
Qed.

Lemma isArray_members (value : Convertible) :
  isArray value = true -> value = JArray (arrayMembers value).
Proof. destruct value; simpl; congruence. Qed.

Lemma arrayLength_members (value : Convertible) :
  arrayLength value = List.length (arrayMembers value).
Proof. now destruct value. Qed.

(** ** Properties of the converters *)

(** C4.  The type classifier.  A type is interpolatable exactly when it is
    Number, Color or an array of Number of fixed length.  For a
    configuration object: without a "type" member the shape is Exponential
    for an interpolatable target and Interval otherwise; "interval" gives
    Interval; "exponential" gives Exponential for an interpolatable target
    and Invalid otherwise; "categorical" gives Categorical; "identity" gives
    Identity; any other string, and any "type" member that is not a string,
    gives Invalid. *)
Theorem functionType_classifies (ty : type.t) (value : Convertible) :
  isObject value = true ->
  (interpolatable ty = true <->
   ty = type.Number \/ ty = type.Color \/
   exists n, ty = type.Array type.Number (Some n)) /\
  (objectMember value "type" = None ->
   functionType ty value = if interpolatable ty then Exponential else Interval) /\
  (forall typeValue, objectMember value "type" = Some typeValue ->
     (toString typeValue = Some "interval" -> functionType ty value = Interval) /\
     (toString typeValue = Some "exponential" ->
      functionType ty value = if interpolatable ty then Exponential else Invalid) /\
     (toString typeValue = Some "categorical" ->
      functionType ty value = Categorical) /\
     (toString typeValue = Some "identity" -> functionType ty value = Identity) /\
     (forall s, toString typeValue = Some s ->
        s <> "interval" -> s <> "exponential" -> s <> "categorical" ->
        s <> "identity" -> functionType ty value = Invalid) /\
     (toString typeValue = None -> functionType ty value = Invalid)).
Proof.
  intros _. split; [|split].
  - split.
    + destruct ty as [| | | | | | |item [n|]| |]; simpl; try discriminate; auto.
      destruct item; simpl; try discriminate. intros _. right. right. now exists n.
    + intros [->|[->|[n ->]]]; reflexivity.
  - unfold functionType. now intros ->.
  - intros typeValue Hmember. unfold functionType. rewrite Hmember.
    repeat split.
    + now intros ->.
    + intros ->. simpl. now destruct (interpolatable ty).
    + now intros ->.
    + now intros ->.
    + intros s -> H1 H2 H3 H4.
      apply String.eqb_neq in H1, H2, H3, H4. now rewrite H1, H2, H3, H4.
    + now intros ->.
Qed.

(** C7.  The base parameter parser gives 1.0 when there is no "base" member,
    the number when the member coerces to one, and fails with "function base
    must be a number" otherwise; an exponential camera function whose stops
    convert is the interpolation over zoom with that base, so with base 2
    for "base": 2 and base 1.0 when "base" is omitted. *)
Theorem convertBase_default_and_use (ty : type.t) (value : Convertible) :
  (objectMember value "base" = None -> convertBase value = Ok 1) /\
  (forall baseValue base, objectMember value "base" = Some baseValue ->
     toNumber baseValue = Some base -> convertBase value = Ok base) /\
  (forall baseValue, objectMember value "base" = Some baseValue ->
     toNumber baseValue = None ->
     convertBase value = Failed "function base must be a number") /\
  (forall stops base, isObject value = true ->
     functionType ty value = Exponential ->
     convertStops ty value = Ok stops -> convertBase value = Ok base ->
     convertCameraFunctionToExpression ty value
     = Ok (Interpolate ty (exponential base) zoom stops)) /\
  (let camera b :=
     JObject (("type", JString "exponential") :: b
              ++ [("stops", JArray [JArray [JNumber 0; JNumber 1];
                                    JArray [JNumber 10; JNumber 5]])])%list in
   let stops := [(0, literal (VDouble 1)); (10, literal (VDouble 5))] in
   convertCameraFunctionToExpression type.Number (camera [("base", JNumber 2)])
   = Ok (Interpolate type.Number (exponential 2) zoom stops) /\
   convertCameraFunctionToExpression type.Number (camera [])
   = Ok (Interpolate type.Number (exponential 1) zoom stops)).
Proof.
  split; [|split; [|split; [|split]]].
  - unfold convertBase. now intros ->.
  - unfold convertBase. now intros baseValue base -> ->.
  - unfold convertBase. now intros baseValue -> ->.
  - intros stops base Hobj Hshape Hstops Hbase.
    unfold convertCameraFunctionToExpression, convertExponentialFunction.
    rewrite Hobj, Hshape, Hstops. simpl. rewrite Hbase. simpl.
    unfold interpolate, createInterpolate.
    assert (Hi : interpolatable ty = true).
    { unfold functionType in Hshape.
      destruct (interpolatable ty); [reflexivity|].
      destruct (objectMember value "type") as [tv|]; [|discriminate].
      destruct (toString tv) as [s|]; [|discriminate].
      rewrite andb_false_r in Hshape.
      destruct (String.eqb s "interval"); [discriminate|].
      destruct (String.eqb s "categorical"); [discriminate|].
      destruct (String.eqb s "identity"); discriminate. }
    now rewrite Hi.
  - split; reflexivity.
Qed.


Lemma stopCollectionErrors_intro {M P : Type} (parse : Convertible -> result M)
  (parseStop : Convertible -> result P) (finish : list P -> M) :
  (forall value,
     parse value
     = match objectMember value "stops" with
       | None => Failed "function value must specify stops"
       | Some stopsValue =>
           if negb (isArray stopsValue) then Failed "function stops must be an array"
           else if Nat.eqb (arrayLength stopsValue) 0
           then Failed "function must have at least one stop"
           else pairs <- mapM parseStop (arrayMembers stopsValue) ;; Ok (finish pairs)
       end) ->
  (forall stopValue, isArray stopValue = false ->
     parseStop stopValue = Failed "function stop must be an array") ->
  (forall stopValue, isArray stopValue = true -> arrayLength stopValue <> 2%nat ->
     parseStop stopValue = Failed "function stop must have two elements") ->
  StopCollectionErrors parse parseStop.
Proof.
  intros Hparse Hshape Hsize value. rewrite Hparse. split.
  - now intros ->.
  - intros stopsValue ->. split; [|split].
    + now intros ->.
    + intros -> ->. reflexivity.
    + intros before stopValue after parsed Harr Hmem Hbefore.
      assert (Hfail : forall msg, parseStop stopValue = Failed msg ->
                (if negb (isArray stopsValue)
                 then Failed "function stops must be an array"
                 else if Nat.eqb (arrayLength stopsValue) 0
                 then Failed "function must have at least one stop"
                 else pairs <- mapM parseStop (arrayMembers stopsValue) ;;
                      Ok (finish pairs)) = Failed msg).
      { intros msg Hmsg. rewrite Harr. simpl.
        rewrite arrayLength_members, Hmem, length_app. simpl.
        replace (Nat.eqb (List.length before + S (List.length after)) 0) with false
          by (symmetry; apply Nat.eqb_neq; lia).
        now rewrite (mapM_first_failure _ _ _ after _ _ Hbefore Hmsg). }
      split; [|split].
      * intros Hna. apply Hfail. now apply Hshape.
      * intros Ha Hlen. apply Hfail. now apply Hsize.
      * exact Hfail.
Qed.

(** C8.  The stop collection parsers, [convertStops] and [convertBranches]
    at every key type: no "stops" member fails with "function value must
    specify stops"; a "stops" member that is not an array, and an empty
    array, fail each with its own message; when the stops before it
    convert, a stop that is not an array, or not of two elements, fails the
    parse with its message, and so does any failure of a stop: nothing is
    returned and the later stops are not looked at. *)
Theorem convertStops_failures (ty : type.t) :
  StopCollectionErrors (convertStops ty) (convertStops_stop ty) /\
  forall (T : Type) (C : Converter T) (L : Less T),
    StopCollectionErrors (convertBranches (T := T) ty) (convertBranches_stop ty).
Proof.
  split; [|intros T C L];
    apply (stopCollectionErrors_intro _ _ (fun pairs => emplaceAll pairs [])).
  - intros value. unfold convertStops.
    destruct (objectMember value "stops") as [sv|]; [|reflexivity].
    now rewrite convertStops_loop_mapM.
  - intros sv Hsv. unfold convertStops_stop. now rewrite Hsv.
  - intros sv Hsv Hlen. unfold convertStops_stop. rewrite Hsv. simpl.
    apply Nat.eqb_neq in Hlen. now rewrite Hlen.
  - intros value. unfold convertBranches.
    destruct (objectMember value "stops") as [sv|]; [|reflexivity].
    now rewrite convertBranches_loop_mapM.
  - intros sv Hsv. unfold convertBranches_stop. now rewrite Hsv.
  - intros sv Hsv Hlen. unfold convertBranches_stop. rewrite Hsv. simpl.
    apply Nat.eqb_neq in Hlen. now rewrite Hlen.
Qed.

(** C9.  A camera function that is not an object fails with "function must
    be an object"; a camera function object whose shape is Categorical,
    Identity or Invalid fails with "unsupported function type". *)
Theorem convertCameraFunctionToExpression_unsupported (ty : type.t)
  (value : Convertible) :
  (isObject value = false ->
   convertCameraFunctionToExpression ty value = Failed "function must be an object") /\
  (isObject value = true ->
   functionType ty value = Categorical \/ functionType ty value = Identity \/
   functionType ty value = Invalid ->
   convertCameraFunctionToExpression ty value = Failed "unsupported function type").
Proof.
  unfold convertCameraFunctionToExpression. split.
  - now intros ->.
  - intros -> [ -> | [ -> | -> ] ]; reflexivity.
Qed.

(** C2.  A categorical function whose "stops" member is an array with a
    first stop of two elements infers its domain from the key of that stop:
    when the key coerces to a boolean the stops are parsed with boolean
    keys; otherwise, when it coerces to a number, with integer keys;
    otherwise, when it coerces to a string, with string keys; otherwise the
    conversion fails with "stop domain value must be a number, string, or
    boolean".  A first key [true] gives the boolean case expression, [5] the
    integer match and ["x"] the string match. *)
Theorem convertCategoricalFunction_infers_domain (ty : type.t) (property : string) :
  (forall value key output rest,
     objectMember value "stops" = Some (JArray (JArray [key; output] :: rest)) ->
     (forall b, toBool key = Some b ->
        convertCategoricalFunction ty value property
        = branches <- convertBranches (T := bool) ty value ;;
          Ok (categorical_bool ty property branches)) /\
     (forall n, toBool key = None -> toNumber key = Some n ->
        convertCategoricalFunction ty value property
        = branches <- convertBranches (T := int64_t) ty value ;;
          Ok (categorical ty property branches)) /\
     (forall s, toBool key = None -> toNumber key = None -> toString key = Some s ->
        convertCategoricalFunction ty value property
        = branches <- convertBranches (T := string) ty value ;;
          Ok (categorical ty property branches)) /\
     (toBool key = None -> toNumber key = None -> toString key = None ->
      convertCategoricalFunction ty value property
      = Failed "stop domain value must be a number, string, or boolean")) /\
  (let stops key := JObject [("stops", JArray [JArray [key; JString "A"]])] in
   let input := get (literal (VString "p")) in
   let A := literal (VString "A") in
   let fallback := error "replaced with default" in
   convertCategoricalFunction type.String (stops (JBool true)) "p"
   = Ok (Case type.String [(input, A)] fallback) /\
   convertCategoricalFunction type.String (stops (JNumber 5)) "p"
   = Ok (MatchInt type.String input [(5%Z, A)] fallback) /\
   convertCategoricalFunction type.String (stops (JString "x")) "p"
   = Ok (MatchString type.String input [("x", A)] fallback)).
Proof.
  split.
  - intros value key output rest Hstops.
    unfold convertCategoricalFunction. rewrite Hstops. simpl.
    split; [|split; [|split]].
    + now intros b ->.
    + now intros n -> ->.
    + now intros s -> -> ->.
    + now intros -> -> ->.
  - repeat split.
Qed.

(** ** The buckets of a composite function *)

Section Buckets.

Context {T : Type} {L : Less T} {O : StrictWeakOrder T}.

Lemma stopsAtZoom_app {V : Type} (z : float) (l1 l2 : list (float * T * V)) :
  stopsAtZoom z (l1 ++ l2)%list = (stopsAtZoom z l1 ++ stopsAtZoom z l2)%list.
Proof.
  induction l1 as [|[[z' d] e] rest IH]; simpl; [reflexivity|].
  destruct (equiv z z'); simpl; now rewrite IH.
Qed.

Lemma firstSeen_app {V : Type} (d : T) (l1 l2 : list (T * V)) :
  firstSeen d (l1 ++ l2)%list
  = match firstSeen d l1 with
    | Some e => Some e
    | None => firstSeen d l2
    end.
Proof.
  induction l1 as [|[d' e] rest IH]; simpl; [reflexivity|].
  now destruct (equiv d d').
Qed.

Lemma groupedByZoom_nil : GroupedByZoom (T := T) [] [].
Proof.
  split; [exact I|split].
  - intros z. simpl. tauto.
  - intros z bucket. discriminate.
Qed.

(** Filing one more triple keeps the buckets grouped. *)
Lemma groupedByZoom_file (seen : list (float * T * Expression))
  (map_ : map float (map T Expression)) (z : float) (d : T) (e : Expression) :
  GroupedByZoom seen map_ ->
  GroupedByZoom (seen ++ [(z, d, e)])%list (subscript z [] (emplace d e) map_).
Proof.
  intros (Hsorted & Hnone & Hsome).
  rewrite subscript_upsert. split; [|split].
  - now apply sorted_upsert.
  - intros z0. rewrite find_upsert, stopsAtZoom_app. simpl.
    destruct (equiv z0 z).
    + split; [discriminate|].
      intros E. apply app_eq_nil in E as [_ E]. discriminate.
    + rewrite app_nil_r. apply Hnone.
  - intros z0 bucket. rewrite find_upsert, stopsAtZoom_app. simpl.
    destruct (equiv z0 z).
    + intros [= <-].
      destruct (find z0 map_) as [old|] eqn:Hold; simpl.
      * destruct (Hsome _ _ Hold) as [Hs Hf]. split.
        -- now apply sorted_emplace.
        -- intros d0. rewrite find_emplace, firstSeen_app, Hf. simpl.
           destruct (firstSeen d0 (stopsAtZoom z0 seen)); [reflexivity|].
           now destruct (equiv d0 d).
      * apply Hnone in Hold. rewrite Hold. simpl. split.
        -- split; [constructor|exact I].
        -- intros d0. unfold equiv.
           destruct (less d0 d), (less d d0); reflexivity.
    + rewrite app_nil_r. apply Hsome.
Qed.

Lemma fileAll_grouped (triples seen : list (float * T * Expression))
  (map_ : map float (map T Expression)) :
  GroupedByZoom seen map_ ->
  GroupedByZoom (seen ++ triples)%list (fileAll triples map_).
Proof.
  unfold fileAll.
  revert seen map_. induction triples as [|[[z d] e] rest IH]; intros seen map_ Hg.
  - simpl. now rewrite app_nil_r.
  - simpl.
    replace (seen ++ (z, d, e) :: rest)%list
      with ((seen ++ [(z, d, e)]) ++ rest)%list
      by (now rewrite <- app_assoc).
    apply IH. now apply groupedByZoom_file.
Qed.

End Buckets.

(** The second loop of [composite<T>] appends, to the stops built so far,
    one inner expression per bucket, in the order of the buckets. *)
Lemma composite_stops_mapM {T : Type} (ty : type.t) (base : double)
  (property : string)
  (makeInnerExpression :
     type.t -> double -> string -> map T Expression -> result Expression)
  (map_ : map float (map T Expression)) (stops : map double Expression) :
  sorted map_ ->
  (forall p q, In p stops -> In q map_ -> less (fst p) (fst q) = true) ->
  composite_stops ty base property makeInnerExpression map_ stops
  = inners <- mapM (fun zb => inner <- makeInnerExpression ty base property (snd zb) ;;
                              Ok ((fst zb : double), inner)) map_ ;;
    Ok (stops ++ inners)%list.
Proof.
  revert stops. induction map_ as [|[z bucket] rest IH]; intros stops Hs Hbelow; simpl.
  - now rewrite app_nil_r.
  - destruct Hs as [Hall Hs].
    destruct (makeInnerExpression ty base property bucket) as [inner| |]; simpl;
      try reflexivity.
    rewrite emplace_last.
    + rewrite IH.
      * match goal with
        | |- context [mapM ?f rest] => destruct (mapM f rest)
        end; simpl; try reflexivity.
        now rewrite <- app_assoc.
      * exact Hs.
      * intros p q Hp Hq. apply in_app_or in Hp as [Hp|[<-|[]]].
        -- apply Hbelow; [exact Hp|now right].
        -- rewrite Forall_forall in Hall. now apply Hall.
    + apply Forall_forall. intros p Hp. apply (Hbelow p (z, bucket) Hp). now left.
Qed.

Lemma convertStops_emplaceAll (ty : type.t) (value stopsValue : Convertible)
  (pairs : list (double * Expression)) :
  objectMember value "stops" = Some stopsValue ->
  isArray stopsValue = true ->
  arrayLength stopsValue <> 0%nat ->
  mapM (convertStops_stop ty) (arrayMembers stopsValue) = Ok pairs ->
  convertStops ty value = Ok (emplaceAll pairs []).
Proof.
  intros Hstops Harr Hlen Hpairs. unfold convertStops.
  rewrite Hstops, Harr. simpl. apply Nat.eqb_neq in Hlen. rewrite Hlen.
  now rewrite convertStops_loop_mapM, Hpairs.
Qed.

Lemma convertBranches_emplaceAll {T : Type} `{Converter T} `{Less T} (ty : type.t)
  (value stopsValue : Convertible) (pairs : list (T * Expression)) :
  objectMember value "stops" = Some stopsValue ->
  isArray stopsValue = true ->
  arrayLength stopsValue <> 0%nat ->
  mapM (convertBranches_stop ty) (arrayMembers stopsValue) = Ok pairs ->
  convertBranches ty value = Ok (emplaceAll pairs []).
Proof.
  intros Hstops Harr Hlen Hpairs. unfold convertBranches.
  rewrite Hstops, Harr. simpl. apply Nat.eqb_neq in Hlen. rewrite Hlen.
  now rewrite convertBranches_loop_mapM, Hpairs.
Qed.

Lemma firstWins_emplaceAll {K V : Type} `{StrictWeakOrder K} (pairs : list (K * V)) :
  FirstWins pairs (emplaceAll pairs []).
Proof.
  apply firstWins_of_find. intros k. now rewrite find_emplaceAll.
Qed.

(** C3.  First-wins on duplicate keys.  When the stops of a configuration
    convert, to the pairs [pairs] in the order of the configuration, the
    parser returns a map, of strictly ascending and so distinct keys, in
    which a stop whose key occurs in no earlier stop is retained and every
    later stop with that key is dropped: the key looks up the expression of
    the first stop.  This holds of [convertStops],
    of [convertBranches] at every key type, and of every zoom bucket of
    the first loop of [composite]; stops [[1,"a"],[1,"b"]] give a map whose
    only entry is "a" under key 1. *)
Theorem stops_first_wins (ty : type.t) :
  (forall value stopsValue pairs,
     objectMember value "stops" = Some stopsValue ->
     isArray stopsValue = true -> arrayLength stopsValue <> 0%nat ->
     mapM (convertStops_stop ty) (arrayMembers stopsValue) = Ok pairs ->
     exists stops,
       convertStops ty value = Ok stops /\ sorted stops /\ FirstWins pairs stops) /\
  (forall (T : Type) (L : Less T) (O : StrictWeakOrder T) (C : Converter T)
          value stopsValue (pairs : list (T * Expression)),
     objectMember value "stops" = Some stopsValue ->
     isArray stopsValue = true -> arrayLength stopsValue <> 0%nat ->
     mapM (convertBranches_stop ty) (arrayMembers stopsValue) = Ok pairs ->
     exists stops,
       convertBranches ty value = Ok stops /\ sorted stops /\
       FirstWins pairs stops) /\
  (forall (T : Type) (L : Less T) (O : StrictWeakOrder T) (C : Converter T)
          stopValues (triples : list (float * T * Expression)),
     mapM (composite_stop ty) stopValues = Ok triples ->
     exists map_,
       composite_loop ty stopValues [] = Ok map_ /\
       forall z,
         (stopsAtZoom z triples <> [] -> exists bucket, find z map_ = Some bucket) /\
         (forall bucket, find z map_ = Some bucket ->
            sorted bucket /\ FirstWins (stopsAtZoom z triples) bucket)) /\
  (let value :=
     JObject [("stops", JArray [JArray [JNumber 1; JString "a"];
                               JArray [JNumber 1; JString "b"]])] in
   convertStops type.String value = Ok [(1, literal (VString "a"))] /\
   convertBranches (T := int64_t) type.String value
   = Ok [(1%Z, literal (VString "a"))]).
Proof.
  split; [|split; [|split]].
  - intros value stopsValue pairs Hstops Harr Hlen Hpairs.
    exists (emplaceAll pairs []). split; [|split].
    + eapply convertStops_emplaceAll; eassumption.
    + now apply sorted_emplaceAll.
    + apply firstWins_emplaceAll.
  - intros T L O C value stopsValue pairs Hstops Harr Hlen Hpairs.
    exists (emplaceAll pairs []). split; [|split].
    + eapply convertBranches_emplaceAll; eassumption.
    + now apply sorted_emplaceAll.
    + apply firstWins_emplaceAll.
  - intros T L O C stopValues triples Htriples.
    exists (fileAll triples []). split.
    + now rewrite composite_loop_mapM, Htriples.
    + pose proof (fileAll_grouped triples [] [] groupedByZoom_nil)
        as (_ & Hnone & Hsome).
      simpl in Hnone, Hsome. intros z. split.
      * intros Hne. destruct (find z (fileAll triples [])) as [bucket|] eqn:E.
        -- now exists bucket.
        -- apply Hnone in E. contradiction.
      * intros bucket Hbucket. destruct (Hsome z bucket Hbucket) as [Hs Hf].
        split; [exact Hs|]. now apply firstWins_of_find.
  - split; reflexivity.
Qed.

(** C1.  The composite converter.  When the header of the function is
    accepted and its stops convert, in order, to the (zoom, inner key,
    output) triples [triples], the converter groups them into per-zoom
    buckets (zooms ascending, one bucket per zoom that occurs, holding the
    stops of that zoom), builds one inner expression per bucket with the
    inner builder it was given, in the order of the zooms, and wraps the
    (zoom, inner expression) stops in an interpolation over zoom when the
    target type is interpolatable and in a step over zoom otherwise.  The
    stops [[{zoom:0,value:0},1],[{zoom:0,value:10},2],[{zoom:5,value:0},3]]
    with a Number target give the buckets 0 and 5, bucket 0 holding two
    stops. *)
Theorem composite_groups_by_zoom :
  (forall (T : Type) (L : Less T) (O : StrictWeakOrder T) (C : Converter T)
          ty value makeInnerExpression propertyValue property base stopsValue
          (triples : list (float * T * Expression)),
     objectMember value "property" = Some propertyValue ->
     toString propertyValue = Some property ->
     convertBase value = Ok base ->
     objectMember value "stops" = Some stopsValue ->
     isArray stopsValue = true ->
     mapM (composite_stop ty) (arrayMembers stopsValue) = Ok triples ->
     exists buckets,
       GroupedByZoom triples buckets /\
       composite ty value makeInnerExpression
       = stops <- mapM (fun zb =>
                          inner <- makeInnerExpression ty base property (snd zb) ;;
                          Ok ((fst zb : double), inner)) buckets ;;
         Ok (if interpolatable ty then Interpolate ty linear zoom stops
             else Step ty zoom stops)) /\
  (let stop z v out :=
     JArray [JObject [("zoom", JNumber z); ("value", JNumber v)]; JNumber out] in
   let stops := [stop 0 0 1; stop 0 10 2; stop 5 0 3] in
   let value := JObject [("property", JString "p"); ("stops", JArray stops)] in
   let lit x := literal (VDouble x) in
   let inner := Interpolate type.Number (exponential 1)
                  (number (get (literal (VString "p")))) in
   composite_loop (T := double) type.Number stops []
   = Ok [(0, [(0, lit 1); (10, lit 2)]); (5, [(0, lit 3)])] /\
   convertCompositeFunctionToExpression type.Number value
   = Ok (Interpolate type.Number linear zoom
           [(0, inner [(0, lit 1); (10, lit 2)]); (5, inner [(0, lit 3)])])).
Proof.
  split.
  - intros T L O C ty value mk propertyValue property base stopsValue triples
      Hprop Hstr Hbase Hstops Harr Htriples.
    exists (fileAll triples []).
    pose proof (fileAll_grouped triples [] [] groupedByZoom_nil) as Hg.
    simpl in Hg. split; [exact Hg|].
    unfold composite. rewrite Hprop, Hbase. simpl. rewrite Hstr, Hstops, Harr. simpl.
    rewrite composite_loop_mapM, Htriples. simpl.
    rewrite composite_stops_mapM.
    + match goal with
      | |- context [mapM ?f (fileAll triples [])] =>
          destruct (mapM f (fileAll triples [])) as [stops| |]
      end; simpl; try reflexivity.
      unfold interpolate, createInterpolate, step.
      now destruct (interpolatable ty).
    + apply Hg.
    + intros p q [].
  - split; reflexivity.
Qed.

(** C5, as amended.  The literal converter fails its assertion, returning no
    value and setting no error, for every value when the target type is
    Null, Object, Error, Value or Collator.  For an Array target whose item
    type is neither Number nor String the assertion is reached only by an
    array value whose length agrees with the declared length, if one is
    declared; a value that is not an array, and an array of another length,
    are reported through the error instead. *)
Theorem convertLiteral_unused_types (ty : type.t) (value : Convertible) :
  (ty = type.Null \/ ty = type.Object \/ ty = type.Error \/ ty = type.Value \/
   ty = type.Collator -> convertLiteral ty value = AssertionFailed) /\
  (forall itemType N, ty = type.Array itemType N ->
     itemType <> type.Number -> itemType <> type.String ->
     (isArray value = true ->
      (forall n, N = Some n -> arrayLength value = n) ->
      convertLiteral ty value = AssertionFailed) /\
     (isArray value = false ->
      convertLiteral ty value = Failed "value must be an array") /\
     (forall n, isArray value = true -> N = Some n -> arrayLength value <> n ->
      convertLiteral ty value
      = Failed ("value must be an array of length " ++ util_toString n)%string)).
Proof.
  split.
  - intros [ -> | [ -> | [ -> | [ -> | -> ] ] ] ]; reflexivity.
  - intros itemType N -> Hn Hs. unfold convertLiteral.
    assert (Hitems : convertLiteral_items itemType value = AssertionFailed)
      by (destruct itemType; simpl; congruence).
    split; [|split].
    + intros -> Hlen. simpl.
      destruct N as [n|]; [|exact Hitems].
      now rewrite (Hlen n eq_refl), Nat.eqb_refl.
    + now intros ->.
    + intros n -> -> Hlen. simpl.
      apply Nat.eqb_neq in Hlen. now rewrite Hlen.
Qed.

(** C6.  The boolean categorical function is the case expression with one
    branch, taken on the value read from the named property, holding the
    expression of the [true] stop, and with the expression of the [false]
    stop as its else branch; a stop that the configuration lacks is replaced
    by the explicit fallback expression [error "replaced with default"].
    Stops [[true,"A"]] give the branch "A" and the fallback as else branch. *)
Theorem categorical_bool_case (ty : type.t) (property : string) :
  let input := get (literal (VString property)) in
  let fallback := error "replaced with default" in
  (forall branches,
     categorical_bool ty property branches
     = Case ty [(input, or_else (find true branches) fallback)]
            (or_else (find false branches) fallback)) /\
  (forall value key output rest b pairs,
     objectMember value "stops" = Some (JArray (JArray [key; output] :: rest)) ->
     toBool key = Some b ->
     mapM (convertBranches_stop (T := bool) ty) (JArray [key; output] :: rest)
     = Ok pairs ->
     convertCategoricalFunction ty value property
     = Ok (Case ty [(input, or_else (firstSeen true pairs) fallback)]
             (or_else (firstSeen false pairs) fallback))) /\
  (let A := literal (VString "A") in
   let p := get (literal (VString "p")) in
   convertCategoricalFunction type.String
     (JObject [("stops", JArray [JArray [JBool true; JString "A"]])]) "p"
   = Ok (Case type.String [(p, A)] fallback) /\
   convertCategoricalFunction type.String
     (JObject [("stops", JArray [JArray [JBool false; JString "A"]])]) "p"
   = Ok (Case type.String [(p, fallback)] A)).
Proof.
  intros input fallback. split; [|split].
  - intros branches. unfold categorical_bool.
    now destruct (find true branches), (find false branches).
  - intros value key output rest b pairs Hstops Hkey Hpairs.
    unfold convertCategoricalFunction. rewrite Hstops. simpl. rewrite Hkey.
    rewrite (convertBranches_emplaceAll ty value _ pairs Hstops eq_refl)
      by (simpl; first [discriminate | exact Hpairs]).
    simpl. unfold categorical_bool.
    rewrite !find_emplaceAll. simpl.
    now destruct (firstSeen true pairs), (firstSeen false pairs).
  - split; reflexivity.
Qed.

(** C10, as amended.  [composite] validates "base" right after the presence
    of "property", before it looks at the stops: when "property" is present
    and "base" does not coerce to a number it fails with "function base must
    be a number", whatever the inner builder.  The composite converter
    reaches this check, for a configuration that is an object with a
    non-empty "stops" array whose first stop has two elements and an object
    input with a "value", when the shape is one it supports for the inner
    domain: Interval and Categorical among them. *)
Theorem composite_validates_base (ty : type.t) (value baseValue : Convertible) :
  objectMember value "base" = Some baseValue ->
  toNumber baseValue = None ->
  (forall (T : Type) (C : Converter T) (L : Less T) makeInnerExpression propertyValue,
     objectMember value "property" = Some propertyValue ->
     composite (T := T) ty value makeInnerExpression
     = Failed "function base must be a number") /\
  (forall input output rest sourceValue propertyValue,
     isObject value = true ->
     objectMember value "stops" = Some (JArray (JArray [input; output] :: rest)) ->
     isObject input = true ->
     objectMember input "value" = Some sourceValue ->
     compositeShapeSupported sourceValue (functionType ty value) = true ->
     objectMember value "property" = Some propertyValue ->
     convertCompositeFunctionToExpression ty value
     = Failed "function base must be a number").
Proof.
  intros Hbase Hnum.
  assert (Hcomposite :
    forall (T : Type) (C : Converter T) (L : Less T) mk propertyValue,
      objectMember value "property" = Some propertyValue ->
      composite (T := T) ty value mk = Failed "function base must be a number").
  { intros T C L mk propertyValue Hprop. unfold composite, convertBase.
    now rewrite Hprop, Hbase, Hnum. }
  split; [exact Hcomposite|].
  intros input output rest sourceValue propertyValue Hobj Hstops Hin Hsrc Hshape Hprop.
  unfold convertCompositeFunctionToExpression.
  rewrite Hobj, Hstops. simpl. rewrite Hin, Hsrc. simpl.
  unfold compositeShapeSupported in Hshape.
  destruct (toBool sourceValue); [|destruct (toNumber sourceValue);
                                   [|destruct (toString sourceValue)]];
    destruct (functionType ty value); try discriminate;
    eapply Hcomposite; eassumption.
Qed.

(** ** Further properties of the converters *)

(** *** No assertion fails on the types that properties use *)

Lemma functionType_Exponential_interpolatable (ty : type.t) (value : Convertible) :
  functionType ty value = Exponential -> interpolatable ty = true.
Proof.
  unfold functionType. destruct (interpolatable ty); [reflexivity|].
  destruct (objectMember value "type") as [tv|]; [|discriminate].
  destruct (toString tv) as [s|]; [|discriminate].
  rewrite andb_false_r.
  destruct (String.eqb s "interval"); [discriminate|].
  destruct (String.eqb s "categorical"); [discriminate|].
  destruct (String.eqb s "identity"); discriminate.
Qed.

Lemma bind_no_assert {A B : Type} (c : result A) (k : A -> result B) :
  c <> AssertionFailed -> (forall a, c = Ok a -> k a <> AssertionFailed) ->
  bind c k <> AssertionFailed.
Proof.
  destruct c as [a| |]; simpl; intros Hc Hk.
  - now apply Hk.
  - discriminate.
  - contradiction.
Qed.

Lemma mapM_no_assert {A B : Type} (f : A -> result B) (l : list A) :
  (forall x, f x <> AssertionFailed) -> mapM f l <> AssertionFailed.
Proof.
  intros Hf. induction l as [|x rest IH]; simpl; [discriminate|].
  apply bind_no_assert; [apply Hf|]. intros y _.
  apply bind_no_assert; [exact IH|]. discriminate.
Qed.

Lemma convertLiteral_numbers_no_assert (members : list Convertible)
  (result_ : list Value) :
  convertLiteral_numbers members result_ <> AssertionFailed.
Proof.
  revert result_. induction members as [|m rest IH]; intros result_; simpl.
  - discriminate.
  - destruct (toNumber m); [apply IH|discriminate].
Qed.

Lemma convertLiteral_strings_no_assert (members : list Convertible)
  (result_ : list Value) :
  convertLiteral_strings members result_ <> AssertionFailed.
Proof.
  revert result_. induction members as [|m rest IH]; intros result_; simpl.
  - discriminate.
  - destruct (toString m); [apply IH|discriminate].
Qed.

Lemma convertLiteral_no_assert (ty : type.t) (value : Convertible) :
  literalType ty = true -> convertLiteral ty value <> AssertionFailed.
Proof.
  destruct ty as [| | | | | | |itemType N| |]; simpl; try discriminate; intros Hty.
  - unfold convert, Converter_float. now destruct (toNumber value).
  - unfold convert, Converter_bool. now destruct (toBool value).
  - unfold convert, Converter_string. now destruct (toString value).
  - unfold convert, Converter_Color.
    destruct (toString value) as [s|]; [|discriminate].
    now destruct (parseColor s).
  - assert (Hitems : convertLiteral_items itemType value <> AssertionFailed).
    { destruct itemType; try discriminate; simpl.
      - apply convertLiteral_numbers_no_assert.
      - apply convertLiteral_strings_no_assert. }
    destruct (negb (isArray value)); [discriminate|].
    destruct N as [n|]; [|exact Hitems].
    destruct (negb (Nat.eqb (arrayLength value) n)); [discriminate|exact Hitems].
Qed.

Lemma keyConverts_float : KeyConverts float.
Proof. intros v. unfold convert, Converter_float. now destruct (toNumber v). Qed.

Lemma keyConverts_double : KeyConverts double.
Proof.
  intros v. unfold convert, Converter_double, convert, Converter_float.
  now destruct (toNumber v).
Qed.

Lemma keyConverts_int64_t : KeyConverts int64_t.
Proof.
  intros v. unfold convert, Converter_int64_t, convert, Converter_float.
  now destruct (toNumber v).
Qed.

Lemma keyConverts_bool : KeyConverts bool.
Proof. intros v. unfold convert, Converter_bool. now destruct (toBool v). Qed.

Lemma keyConverts_string : KeyConverts string.
Proof. intros v. unfold convert, Converter_string. now destruct (toString v). Qed.

Lemma convertStops_stop_no_assert (ty : type.t) (stopValue : Convertible) :
  literalType ty = true -> convertStops_stop ty stopValue <> AssertionFailed.
Proof.
  intros Hty. unfold convertStops_stop.
  destruct (negb (isArray stopValue)); [discriminate|].
  destruct (negb (Nat.eqb (arrayLength stopValue) 2)); [discriminate|].
  apply bind_no_assert; [apply keyConverts_float|]. intros t _.
  apply bind_no_assert; [now apply convertLiteral_no_assert|]. discriminate.
Qed.

Lemma convertBranches_stop_no_assert {T : Type} `{Converter T} (ty : type.t)
  (stopValue : Convertible) :
  KeyConverts T -> literalType ty = true ->
  convertBranches_stop ty stopValue <> AssertionFailed.
Proof.
  intros Hkey Hty. unfold convertBranches_stop.
  destruct (negb (isArray stopValue)); [discriminate|].
  destruct (negb (Nat.eqb (arrayLength stopValue) 2)); [discriminate|].
  apply bind_no_assert; [apply Hkey|]. intros t _.
  apply bind_no_assert; [now apply convertLiteral_no_assert|]. discriminate.
Qed.

Lemma composite_stop_no_assert {T : Type} `{Converter T} (ty : type.t)
  (stopValue : Convertible) :
  KeyConverts T -> literalType ty = true ->
  composite_stop ty stopValue <> AssertionFailed.
Proof.
  intros Hkey Hty. unfold composite_stop.
  destruct (negb (isArray stopValue)); [discriminate|].
  destruct (negb (Nat.eqb (arrayLength stopValue) 2)); [discriminate|].
  simpl.
  destruct (negb (isObject (arrayMember stopValue 0))); [discriminate|].
  destruct (objectMember (arrayMember stopValue 0) "zoom"); [|discriminate].
  destruct (objectMember (arrayMember stopValue 0) "value"); [|discriminate].
  apply bind_no_assert; [apply keyConverts_float|]. intros z _.
  apply bind_no_assert; [apply Hkey|]. intros d _.
  apply bind_no_assert; [now apply convertLiteral_no_assert|]. discriminate.
Qed.

Lemma convertStops_no_assert (ty : type.t) (value : Convertible) :
  literalType ty = true -> convertStops ty value <> AssertionFailed.
Proof.
  intros Hty. unfold convertStops.
  destruct (objectMember value "stops") as [sv|]; [|discriminate].
  destruct (negb (isArray sv)); [discriminate|].
  destruct (Nat.eqb (arrayLength sv) 0); [discriminate|].
  rewrite convertStops_loop_mapM.
  apply bind_no_assert; [|discriminate].
  apply mapM_no_assert. intros x. now apply convertStops_stop_no_assert.
Qed.

Lemma convertBranches_no_assert {T : Type} `{Converter T} `{Less T} (ty : type.t)
  (value : Convertible) :
  KeyConverts T -> literalType ty = true ->
  convertBranches ty value <> AssertionFailed.
Proof.
  intros Hkey Hty. unfold convertBranches.
  destruct (objectMember value "stops") as [sv|]; [|discriminate].
  destruct (negb (isArray sv)); [discriminate|].
  destruct (Nat.eqb (arrayLength sv) 0); [discriminate|].
  rewrite convertBranches_loop_mapM.
  apply bind_no_assert; [|discriminate].
  apply mapM_no_assert. intros x. now apply convertBranches_stop_no_assert.
Qed.

Lemma interpolate_no_assert (ty : type.t) (interpolator : Interpolator)
  (input : Expression) (stops : map double Expression) :
  interpolatable ty = true ->
  interpolate ty interpolator input stops = Ok (Interpolate ty interpolator input stops).
Proof. intros Hi. unfold interpolate, createInterpolate. now rewrite Hi. Qed.

Lemma convertCategoricalFunction_no_assert (ty : type.t) (value : Convertible)
  (property : string) :
  literalType ty = true ->
  convertCategoricalFunction ty value property <> AssertionFailed.
Proof.
  intros Hty. unfold convertCategoricalFunction.
  destruct (objectMember value "stops") as [sv|]; [|discriminate].
  destruct (negb (isArray sv)); [discriminate|].
  destruct (Nat.eqb (arrayLength sv) 0); [discriminate|].
  simpl.
  destruct (negb (isArray (arrayMember sv 0))); [discriminate|].
  destruct (negb (Nat.eqb (arrayLength (arrayMember sv 0)) 2)); [discriminate|].
  destruct (toBool _); [|destruct (toNumber _); [|destruct (toString _)]];
    try discriminate;
    (apply bind_no_assert; [apply convertBranches_no_assert; [|exact Hty]|discriminate]).
  - apply keyConverts_bool.
  - apply keyConverts_int64_t.
  - apply keyConverts_string.
Qed.

Lemma composite_stops_no_assert {T : Type} (ty : type.t) (base : double)
  (property : string)
  (makeInnerExpression :
     type.t -> double -> string -> map T Expression -> result Expression)
  (map_ : map float (map T Expression)) (stops : map double Expression) :
  (forall bucket, makeInnerExpression ty base property bucket <> AssertionFailed) ->
  composite_stops ty base property makeInnerExpression map_ stops <> AssertionFailed.
Proof.
  intros Hmk. revert stops. induction map_ as [|[z bucket] rest IH]; intros stops; simpl.
  - discriminate.
  - apply bind_no_assert; [apply Hmk|]. intros inner _. apply IH.
Qed.

Lemma composite_no_assert {T : Type} `{Converter T} `{Less T} (ty : type.t)
  (value stopsValue : Convertible)
  (makeInnerExpression :
     type.t -> double -> string -> map T Expression -> result Expression) :
  KeyConverts T -> literalType ty = true ->
  objectMember value "stops" = Some stopsValue -> isArray stopsValue = true ->
  (forall base property bucket,
     makeInnerExpression ty base property bucket <> AssertionFailed) ->
  composite ty value makeInnerExpression <> AssertionFailed.
Proof.
  intros Hkey Hty Hstops Harr Hmk. unfold composite.
  destruct (objectMember value "property") as [pv|]; [|discriminate].
  apply bind_no_assert.
  { unfold convertBase. destruct (objectMember value "base") as [bv|]; [|discriminate].
    now destruct (toNumber bv). }
  intros base _. destruct (toString pv) as [p|]; [|discriminate].
  rewrite Hstops, Harr. simpl.
  apply bind_no_assert.
  { rewrite composite_loop_mapM. apply bind_no_assert; [|discriminate].
    apply mapM_no_assert. intros x. now apply composite_stop_no_assert. }
  intros map_ _. apply bind_no_assert.
  { apply composite_stops_no_assert. intros bucket. apply Hmk. }
  intros stops _. destruct (interpolatable ty) eqn:Hi.
  - now rewrite interpolate_no_assert.
  - discriminate.
Qed.

(** X1.  On a target type that properties use (Number, Boolean, String,
    Color, array of numbers, array of strings) no assertion of the file can
    fail: the literal converter and the three entry points either return an
    expression or report an error, whatever the configuration. *)
Theorem converters_assert_nothing (ty : type.t) (value : Convertible) :
  literalType ty = true ->
  convertLiteral ty value <> AssertionFailed /\
  convertCameraFunctionToExpression ty value <> AssertionFailed /\
  convertSourceFunctionToExpression ty value <> AssertionFailed /\
  convertCompositeFunctionToExpression ty value <> AssertionFailed.
Proof.
  intros Hty.
  assert (Hinterval : forall input,
            convertIntervalFunction ty value input <> AssertionFailed).
  { intros input. unfold convertIntervalFunction.
    apply bind_no_assert; [now apply convertStops_no_assert|]. discriminate. }
  assert (Hexponential : forall input, functionType ty value = Exponential ->
            convertExponentialFunction ty value input <> AssertionFailed).
  { intros input Hshape. unfold convertExponentialFunction.
    apply bind_no_assert; [now apply convertStops_no_assert|]. intros stops _.
    apply bind_no_assert.
    { unfold convertBase. destruct (objectMember value "base") as [bv|]; [|discriminate].
      now destruct (toNumber bv). }
    intros base _.
    now rewrite (interpolate_no_assert _ _ _ _
                   (functionType_Exponential_interpolatable _ _ Hshape)). }
  split; [|split; [|split]].
  - now apply convertLiteral_no_assert.
  - unfold convertCameraFunctionToExpression.
    destruct (negb (isObject value)); [discriminate|].
    destruct (functionType ty value) eqn:Hshape; try discriminate.
    + apply Hinterval.
    + now apply Hexponential.
  - unfold convertSourceFunctionToExpression.
    destruct (negb (isObject value)); [discriminate|].
    destruct (objectMember value "property") as [pv|]; [|discriminate].
    destruct (toString pv) as [p|]; [|discriminate].
    destruct (functionType ty value) eqn:Hshape; try discriminate.
    + apply Hinterval.
    + now apply Hexponential.
    + now apply convertCategoricalFunction_no_assert.
    + destruct ty; try discriminate.
  - unfold convertCompositeFunctionToExpression.
    destruct (negb (isObject value)); [discriminate|].
    destruct (objectMember value "stops") as [sv|] eqn:Hstops; [|discriminate].
    destruct (isArray sv) eqn:Harr; [|discriminate]. simpl.
    destruct (Nat.eqb (arrayLength sv) 0); [discriminate|].
    destruct (negb (isArray (arrayMember sv 0))); [discriminate|].
    destruct (negb (Nat.eqb (arrayLength (arrayMember sv 0)) 2)); [discriminate|].
    destruct (negb (isObject (arrayMember (arrayMember sv 0) 0))); [discriminate|].
    destruct (objectMember (arrayMember (arrayMember sv 0) 0) "value") as [src|];
      [|discriminate].
    destruct (toBool src); [|destruct (toNumber src); [|destruct (toString src)]];
      try discriminate;
      destruct (functionType ty value) eqn:Hshape; try discriminate;
      (eapply composite_no_assert;
       [..|exact Hstops|exact Harr|]; try exact Hty).
    + apply keyConverts_bool.
    + discriminate.
    + apply keyConverts_double.
    + discriminate.
    + apply keyConverts_double.
    + intros base property bucket. unfold inner_exponential.
      now rewrite (interpolate_no_assert _ _ _ _
                     (functionType_Exponential_interpolatable _ _ Hshape)).
    + apply keyConverts_int64_t.
    + discriminate.
    + apply keyConverts_string.
    + discriminate.
Qed.

(** *** The order of stops with distinct keys does not matter *)

Section OrderOfStops.

Context {K : Type} `{StrictWeakOrder K} {V : Type}.

Lemma equiv_false_less (x y : K) :
  equiv x y = false -> less x y = true \/ less y x = true.
Proof.
  unfold equiv. destruct (less x y), (less y x); simpl; auto; discriminate.
Qed.

Ltac rewrite_less :=
  repeat (simpl;
          match goal with
          | E : less ?a ?b = _ |- context [less ?a ?b] => rewrite E
          end).

Lemma emplace_comm_less (k1 k2 : K) (v1 v2 : V) (m : map K V) :
  less k1 k2 = true ->
  emplace k1 v1 (emplace k2 v2 m) = emplace k2 v2 (emplace k1 v1 m).
Proof.
  intros E12. pose proof (less_asym _ _ E12) as E21.
  induction m as [|[k v] rest IH]; simpl.
  - now rewrite E12, E21.
  - destruct (less k2 k) eqn:E2k.
    + pose proof (less_trans _ _ _ E12 E2k) as E1k. rewrite_less.
      reflexivity.
    + destruct (less k k2) eqn:Ek2.
      * destruct (less k1 k) eqn:E1k; [|destruct (less k k1) eqn:Ek1];
          rewrite_less; now rewrite ?IH.
      * assert (Hk : equiv k2 k = true) by (apply equiv_spec; auto).
        pose proof (less_equiv_r _ _ _ Hk E12) as E1k.
        rewrite_less. reflexivity.
Qed.

Lemma emplace_comm (k1 k2 : K) (v1 v2 : V) (m : map K V) :
  equiv k1 k2 = false ->
  emplace k1 v1 (emplace k2 v2 m) = emplace k2 v2 (emplace k1 v1 m).
Proof.
  intros E. destruct (equiv_false_less _ _ E) as [L|L].
  - now apply emplace_comm_less.
  - symmetry. now apply emplace_comm_less.
Qed.

Lemma distinctKeys_perm (l l' : list (K * V)) :
  Permutation l l' -> distinctKeys l -> distinctKeys l'.
Proof.
  induction 1 as [|p l l' Hp IH|p q l|l l' l'' H1 IH1 H2 IH2]; simpl.
  - trivial.
  - intros [Hall Hd]. split; [|now apply IH].
    eapply Permutation_Forall; eassumption.
  - intros [Hq [Hp Hd]].
    inversion Hq as [|? ? Hqp Hql]; subst.
    split; [|split; assumption].
    constructor; [|assumption]. now rewrite equiv_sym.
  - auto.
Qed.

Lemma emplaceAll_perm (l l' : list (K * V)) :
  Permutation l l' -> distinctKeys l ->
  forall stops, emplaceAll l stops = emplaceAll l' stops.
Proof.
  unfold emplaceAll.
  induction 1 as [|p l l' Hp IH|p q l|l l' l'' H1 IH1 H2 IH2]; simpl.
  - reflexivity.
  - intros [_ Hd] stops. now apply IH.
  - intros [Hq _] stops.
    inversion Hq as [|? ? Hqp Hql]; subst.
    rewrite equiv_sym in Hqp. now rewrite (emplace_comm _ _ _ _ _ Hqp).
  - intros Hd stops. rewrite IH1 by assumption.
    apply IH2. eapply distinctKeys_perm; eassumption.
Qed.

End OrderOfStops.

Lemma mapM_perm {A B : Type} (f : A -> result B) (l l' : list A) :
  Permutation l l' ->
  forall ys, mapM f l = Ok ys -> exists ys', mapM f l' = Ok ys' /\ Permutation ys ys'.
Proof.
  induction 1 as [|x l l' Hp IH|x y l|l l' l'' H1 IH1 H2 IH2]; simpl; intros ys.
  - intros [= <-]. now exists [].
  - destruct (f x) as [b| |]; simpl; try discriminate.
    destruct (mapM f l) as [bs| |]; simpl; try discriminate.
    intros [= <-]. destruct (IH bs eq_refl) as (bs' & -> & Hbs).
    exists (b :: bs'). simpl. split; [reflexivity|now constructor].
  - destruct (f y) as [b| |]; simpl; try discriminate.
    destruct (f x) as [c| |]; simpl; try discriminate.
    destruct (mapM f l) as [bs| |]; simpl; try discriminate.
    intros [= <-]. exists (c :: b :: bs). split; [reflexivity|constructor].
  - intros Hys. destruct (IH1 ys Hys) as (ys' & Hys' & P1).
    destruct (IH2 ys' Hys') as (ys'' & Hys'' & P2).
    exists ys''. split; [assumption|]. eapply perm_trans; eassumption.
Qed.

(** X2.  When the stops of a configuration convert to pairwise distinct
    keys, the stop map does not depend on the order in which the
    configuration lists them: a configuration whose stops array is a
    permutation gives the same result, for [convertStops] and for
    [convertBranches] at every key type. *)
Theorem stops_order_irrelevant (ty : type.t) (value value' : Convertible)
  (stopValues stopValues' : list Convertible) :
  objectMember value "stops" = Some (JArray stopValues) ->
  objectMember value' "stops" = Some (JArray stopValues') ->
  Permutation stopValues stopValues' ->
  (forall pairs,
     mapM (convertStops_stop ty) stopValues = Ok pairs -> distinctKeys pairs ->
     convertStops ty value' = convertStops ty value) /\
  (forall (T : Type) (L : Less T) (O : StrictWeakOrder T) (C : Converter T)
          (pairs : list (T * Expression)),
     mapM (convertBranches_stop ty) stopValues = Ok pairs -> distinctKeys pairs ->
     convertBranches (T := T) ty value' = convertBranches ty value).
Proof.
  intros Hstops Hstops' Hperm.
  assert (Hlen : List.length stopValues' = List.length stopValues)
    by (symmetry; now apply Permutation_length).
  split.
  - intros pairs Hpairs Hd. unfold convertStops.
    rewrite Hstops, Hstops'. simpl. rewrite Hlen.
    destruct (Nat.eqb (List.length stopValues) 0); [reflexivity|].
    rewrite !convertStops_loop_mapM, Hpairs.
    destruct (mapM_perm _ _ _ Hperm _ Hpairs) as (pairs' & -> & Hp).
    simpl. now rewrite (emplaceAll_perm _ _ Hp Hd).
  - intros T L O C pairs Hpairs Hd. unfold convertBranches.
    rewrite Hstops, Hstops'. simpl. rewrite Hlen.
    destruct (Nat.eqb (List.length stopValues) 0); [reflexivity|].
    rewrite !convertBranches_loop_mapM, Hpairs.
    destruct (mapM_perm _ _ _ Hperm _ Hpairs) as (pairs' & -> & Hp).
    simpl. now rewrite (emplaceAll_perm _ _ Hp Hd).
Qed.

(** *** Array literals *)

Lemma convertLiteral_numbers_all (members : list Convertible) (numbers : list float)
  (result_ : list Value) :
  Forall2 (fun member n => toNumber member = Some n) members numbers ->
  convertLiteral_numbers members result_
  = Ok (literal (VVector (result_ ++ List.map VDouble numbers)%list)).
Proof.
  intros Hall. revert result_.
  induction Hall as [|m n members numbers Hm _ IH]; intros result_; simpl.
  - now rewrite app_nil_r.
  - rewrite Hm, IH. now rewrite <- app_assoc.
Qed.

Lemma convertLiteral_numbers_some (members : list Convertible) (result_ : list Value) :
  Exists (fun member => toNumber member = None) members ->
  convertLiteral_numbers members result_ = Failed "value must be an array of numbers".
Proof.
  intros Hex. revert result_.
  induction Hex as [m members Hm|m members _ IH]; intros result_; simpl.
  - now rewrite Hm.
  - destruct (toNumber m); [apply IH|reflexivity].
Qed.

Lemma convertLiteral_strings_all (members : list Convertible) (strings : list string)
  (result_ : list Value) :
  Forall2 (fun member s => toString member = Some s) members strings ->
  convertLiteral_strings members result_
  = Ok (literal (VVector (result_ ++ List.map VString strings)%list)).
Proof.
  intros Hall. revert result_.
  induction Hall as [|m s members strings Hm _ IH]; intros result_; simpl.
  - now rewrite app_nil_r.
  - rewrite Hm, IH. now rewrite <- app_assoc.
Qed.

Lemma convertLiteral_strings_some (members : list Convertible) (result_ : list Value) :
  Exists (fun member => toString member = None) members ->
  convertLiteral_strings members result_ = Failed "value must be an array of strings".
Proof.
  intros Hex. revert result_.
  induction Hex as [m members Hm|m members _ IH]; intros result_; simpl.
  - now rewrite Hm.
  - destruct (toString m); [apply IH|reflexivity].
Qed.

(** X3.  For an array target and an array value of the declared length (if
    one is declared): when every element coerces to a number, the literal
    holds these numbers, as many and in the same order; when some element
    does not, the conversion fails with "value must be an array of numbers".
    The same holds of an array of strings. *)
Theorem convertLiteral_array (N : option nat) (value : Convertible) :
  isArray value = true ->
  (forall n, N = Some n -> arrayLength value = n) ->
  (forall numbers,
     Forall2 (fun member n => toNumber member = Some n) (arrayMembers value) numbers ->
     convertLiteral (type.Array type.Number N) value
     = Ok (literal (VVector (List.map VDouble numbers)))) /\
  (Exists (fun member => toNumber member = None) (arrayMembers value) ->
   convertLiteral (type.Array type.Number N) value
   = Failed "value must be an array of numbers") /\
  (forall strings,
     Forall2 (fun member s => toString member = Some s) (arrayMembers value) strings ->
     convertLiteral (type.Array type.String N) value
     = Ok (literal (VVector (List.map VString strings)))) /\
  (Exists (fun member => toString member = None) (arrayMembers value) ->
   convertLiteral (type.Array type.String N) value
   = Failed "value must be an array of strings").
Proof.
  intros Harr Hlen.
  assert (Hitems : forall itemType,
            convertLiteral (type.Array itemType N) value
            = convertLiteral_items itemType value).
  { intros itemType. unfold convertLiteral. rewrite Harr. simpl.
    destruct N as [n|]; [|reflexivity].
    now rewrite (Hlen n eq_refl), Nat.eqb_refl. }
  rewrite !Hitems. simpl. split; [|split; [|split]].
  - intros numbers Hall. now rewrite (convertLiteral_numbers_all _ _ [] Hall).
  - apply convertLiteral_numbers_some.
  - intros strings Hall. now rewrite (convertLiteral_strings_all _ _ [] Hall).
  - apply convertLiteral_strings_some.
Qed.

(** *** Source functions *)

(** X4.  An interval or exponential source function is the camera function
    of the same configuration with the zoom input replaced by the number
    read from the property: it fails when, and as, the camera function
    fails, and otherwise has the same type, curve and stops. *)
Theorem source_function_as_camera (ty : type.t) (value propertyValue : Convertible)
  (property : string) :
  isObject value = true ->
  objectMember value "property" = Some propertyValue ->
  toString propertyValue = Some property ->
  functionType ty value = Interval \/ functionType ty value = Exponential ->
  convertSourceFunctionToExpression ty value
  = e <- convertCameraFunctionToExpression ty value ;;
    Ok (withInput (number (get (literal (VString property)))) e).
Proof.
  intros Hobj Hprop Hstr Hshape.
  unfold convertSourceFunctionToExpression, convertCameraFunctionToExpression.
  rewrite Hobj, Hprop, Hstr. simpl.
  destruct Hshape as [Hshape|Hshape]; rewrite Hshape.
  - unfold convertIntervalFunction. now destruct (convertStops ty value).
  - unfold convertExponentialFunction.
    destruct (convertStops ty value) as [stops| |]; simpl; try reflexivity.
    destruct (convertBase value) as [base| |]; simpl; try reflexivity.
    now rewrite !(interpolate_no_assert _ _ _ _
                    (functionType_Exponential_interpolatable _ _ Hshape)).
Qed.

(** X5.  An identity source function reads the property and looks at
    nothing else: for an object with a string "property" and the "type"
    "identity" the result is the read of the property asserted as a string,
    a number or a boolean, coerced to a colour, or asserted as the array
    type, by the target type, whatever "stops" and "base" are or whether
    they are there at all. *)
Theorem identity_function_reads_property (ty : type.t)
  (value propertyValue typeValue : Convertible) (property : string) :
  isObject value = true ->
  objectMember value "property" = Some propertyValue ->
  toString propertyValue = Some property ->
  objectMember value "type" = Some typeValue ->
  toString typeValue = Some "identity" ->
  let read := get (literal (VString property)) in
  (ty = type.String -> convertSourceFunctionToExpression ty value = Ok (string_ read)) /\
  (ty = type.Number -> convertSourceFunctionToExpression ty value = Ok (number read)) /\
  (ty = type.Boolean ->
   convertSourceFunctionToExpression ty value = Ok (boolean read)) /\
  (ty = type.Color -> convertSourceFunctionToExpression ty value = Ok (toColor read)) /\
  (forall itemType N, ty = type.Array itemType N ->
     convertSourceFunctionToExpression ty value
     = Ok (ArrayAssertion (type.Array itemType N) read)).
Proof.
  intros Hobj Hprop Hstr Htype Hid read.
  assert (Hshape : functionType ty value = Identity).
  { unfold functionType. rewrite Htype, Hid. simpl.
    now destruct (interpolatable ty). }
  unfold convertSourceFunctionToExpression.
  rewrite Hobj, Hprop, Hstr, Hshape. simpl.
  repeat split; try (now intros ->).
  now intros itemType N ->.
Qed.

(** *** Composite functions: shapes that are not supported *)

(** X6.  For a composite function that passes the entry checks, with
    [sourceValue] the "value" of its first stop: when the value coerces to
    none of boolean, number and string the conversion fails with "stop
    domain value must be a number, string, or boolean"; otherwise, when the
    shape is not one supported for the inferred domain, it fails with
    "unsupported function type".  So a composite function over boolean or
    string values that has no "type" member always fails, the default shape
    being Exponential or Interval. *)
Theorem composite_unsupported_shapes (ty : type.t)
  (value input output sourceValue : Convertible) (rest : list Convertible) :
  isObject value = true ->
  objectMember value "stops" = Some (JArray (JArray [input; output] :: rest)) ->
  isObject input = true ->
  objectMember input "value" = Some sourceValue ->
  (toBool sourceValue = None -> toNumber sourceValue = None ->
   toString sourceValue = None ->
   convertCompositeFunctionToExpression ty value
   = Failed "stop domain value must be a number, string, or boolean") /\
  (toBool sourceValue <> None \/ toNumber sourceValue <> None \/
   toString sourceValue <> None ->
   compositeShapeSupported sourceValue (functionType ty value) = false ->
   convertCompositeFunctionToExpression ty value
   = Failed "unsupported function type") /\
  (objectMember value "type" = None ->
   toBool sourceValue <> None \/
   (toNumber sourceValue = None /\ toString sourceValue <> None) ->
   convertCompositeFunctionToExpression ty value
   = Failed "unsupported function type").
Proof.
  intros Hobj Hstops Hin Hsrc.
  unfold convertCompositeFunctionToExpression.
  rewrite Hobj, Hstops. simpl. rewrite Hin, Hsrc. simpl.
  split; [|split].
  - now intros -> -> ->.
  - unfold compositeShapeSupported. intros Hsome.
    destruct (toBool sourceValue); [|destruct (toNumber sourceValue);
                                     [|destruct (toString sourceValue)]];
      try (destruct (functionType ty value); congruence).
    destruct Hsome as [E|[E|E]]; congruence.
  - intros Htype Hdomain.
    assert (Hshape : functionType ty value = Exponential \/
                     functionType ty value = Interval).
    { unfold functionType. rewrite Htype. destruct (interpolatable ty); auto. }
    destruct (toBool sourceValue).
    + destruct Hshape as [->| ->]; reflexivity.
    + destruct Hdomain as [E|[-> E]]; [congruence|].
      destruct (toString sourceValue); [|congruence].
      destruct Hshape as [->| ->]; reflexivity.
Qed.

(** *** Categorical functions: one domain for all keys *)

Lemma convertBranches_first_failure {T : Type} `{Converter T} `{Less T}
  (ty : type.t) (value : Convertible) (before : list Convertible)
  (stopValue : Convertible) (after : list Convertible)
  (parsed : list (T * Expression)) (msg : string) :
  objectMember value "stops" = Some (JArray (before ++ stopValue :: after)%list) ->
  mapM (convertBranches_stop ty) before = Ok parsed ->
  convertBranches_stop ty stopValue = Failed msg ->
  convertBranches ty value = Failed msg.
Proof.
  intros Hstops Hbefore Hstop. unfold convertBranches. rewrite Hstops. simpl.
  rewrite length_app. simpl.
  replace (Nat.eqb (List.length before + S (List.length after)) 0) with false
    by (symmetry; apply Nat.eqb_neq; lia).
  rewrite convertBranches_loop_mapM.
  now rewrite (mapM_first_failure _ _ _ after _ _ Hbefore Hstop).
Qed.

Lemma convertBranches_stop_key {T : Type} `{Converter T} (ty : type.t)
  (key output : Convertible) (msg : string) :
  convert (T := T) key = Failed msg ->
  convertBranches_stop ty (JArray [key; output]) = Failed msg.
Proof. intros Hkey. unfold convertBranches_stop. simpl. now rewrite Hkey. Qed.

(** X7.  The first stop fixes the domain of a categorical function for all
    its stops: once the key of the first stop has chosen boolean, integer or
    string keys, a later stop whose key does not convert to that domain
    fails the whole conversion, with the error of the key's converter, when
    the stops before it convert. *)
Theorem categorical_keys_share_domain (ty : type.t) (property : string)
  (value key output : Convertible) (before : list Convertible)
  (key' output' : Convertible) (after : list Convertible) (msg : string) :
  objectMember value "stops"
  = Some (JArray (JArray [key; output]
                    :: before ++ JArray [key'; output'] :: after)%list) ->
  (forall b parsed, toBool key = Some b ->
     mapM (convertBranches_stop (T := bool) ty) (JArray [key; output] :: before)
     = Ok parsed ->
     convert (T := bool) key' = Failed msg ->
     convertCategoricalFunction ty value property = Failed msg) /\
  (forall n parsed, toBool key = None -> toNumber key = Some n ->
     mapM (convertBranches_stop (T := int64_t) ty) (JArray [key; output] :: before)
     = Ok parsed ->
     convert (T := int64_t) key' = Failed msg ->
     convertCategoricalFunction ty value property = Failed msg) /\
  (forall s parsed, toBool key = None -> toNumber key = None ->
     toString key = Some s ->
     mapM (convertBranches_stop (T := string) ty) (JArray [key; output] :: before)
     = Ok parsed ->
     convert (T := string) key' = Failed msg ->
     convertCategoricalFunction ty value property = Failed msg).
Proof.
  intros Hstops.
  assert (Hstops' :
    objectMember value "stops"
    = Some (JArray ((JArray [key; output] :: before)
                      ++ JArray [key'; output'] :: after)%list))
    by exact Hstops.
  unfold convertCategoricalFunction. rewrite Hstops. simpl.
  split; [|split].
  - intros b parsed -> Hparsed Hkey.
    now rewrite (convertBranches_first_failure ty value _ _ _ _ _ Hstops' Hparsed
                   (convertBranches_stop_key ty key' output' msg Hkey)).
  - intros n parsed -> -> Hparsed Hkey.
    now rewrite (convertBranches_first_failure ty value _ _ _ _ _ Hstops' Hparsed
                   (convertBranches_stop_key ty key' output' msg Hkey)).
  - intros s parsed -> -> -> Hparsed Hkey.
    now rewrite (convertBranches_first_failure ty value _ _ _ _ _ Hstops' Hparsed
                   (convertBranches_stop_key ty key' output' msg Hkey)).
Qed.

(** *** What a successful conversion returns *)

Lemma mapM_length {A B : Type} (f : A -> result B) (l : list A) (ys : list B) :
  mapM f l = Ok ys -> List.length ys = List.length l.
Proof.
  revert ys. induction l as [|x rest IH]; simpl; intros ys.
  - now intros [= <-].
  - destruct (f x); simpl; try discriminate.
    destruct (mapM f rest); simpl; try discriminate.
    intros [= <-]. simpl. now rewrite (IH _ eq_refl).
Qed.

Lemma length_emplace {K V : Type} `{Less K} (k : K) (v : V) (m : map K V) :
  (List.length m <= List.length (emplace k v m) <= S (List.length m))%nat.
Proof.
  induction m as [|[k' v'] rest IH]; simpl; [lia|].
  destruct (less k k'); [simpl; lia|].
  destruct (less k' k); simpl; lia.
Qed.

Lemma length_emplaceAll {K V : Type} `{Less K} (pairs : list (K * V)) (m : map K V) :
  (List.length m <= List.length (emplaceAll pairs m)
   <= List.length pairs + List.length m)%nat.
Proof.
  unfold emplaceAll. revert m.
  induction pairs as [|[k v] rest IH]; intros m; simpl; [lia|].
  pose proof (IH (emplace k v m)). pose proof (length_emplace k v m). lia.
Qed.

Lemma length_emplaceAll_nil {K V : Type} `{Less K} (pairs : list (K * V)) :
  pairs <> [] ->
  (1 <= List.length (emplaceAll pairs []) <= List.length pairs)%nat.
Proof.
  destruct pairs as [|[k v] rest]; [congruence|]. intros _.
  unfold emplaceAll. simpl.
  pose proof (length_emplaceAll rest [(k, v)]) as Hl.
  unfold emplaceAll in Hl. simpl in Hl. lia.
Qed.


Lemma convertStops_returns (ty : type.t) (value : Convertible)
  (stops : map double Expression) :
  convertStops ty value = Ok stops ->
  exists stopsValue,
    objectMember value "stops" = Some stopsValue /\
    sorted stops /\
    (1 <= List.length stops <= arrayLength stopsValue)%nat.
Proof.
  unfold convertStops.
  destruct (objectMember value "stops") as [sv|]; [|discriminate].
  destruct (negb (isArray sv)); [discriminate|].
  destruct (Nat.eqb (arrayLength sv) 0) eqn:Hlen; [discriminate|].
  rewrite convertStops_loop_mapM.
  destruct (mapM (convertStops_stop ty) (arrayMembers sv)) as [pairs| |] eqn:Hpairs;
    simpl; try discriminate.
  intros [= <-]. exists sv. split; [reflexivity|]. split.
  - now apply sorted_emplaceAll.
  - apply mapM_length in Hpairs. rewrite <- arrayLength_members in Hpairs.
    apply Nat.eqb_neq in Hlen. rewrite <- Hpairs.
    apply length_emplaceAll_nil. destruct pairs; simpl in *; [lia|discriminate].
Qed.

(** X8.  A camera function that converts gives a step over zoom, for the
    Interval shape, or an exponential interpolation over zoom with the base
    of the configuration, for the Exponential shape and an interpolatable
    target; its stops are in strictly ascending order of their keys, at
    least one and at most as many as the configuration lists. *)
Theorem camera_function_returns (ty : type.t) (value : Convertible) (e : Expression) :
  convertCameraFunctionToExpression ty value = Ok e ->
  exists stopsValue stops,
    objectMember value "stops" = Some stopsValue /\
    sorted stops /\
    (1 <= List.length stops <= arrayLength stopsValue)%nat /\
    ((functionType ty value = Interval /\ e = Step ty zoom stops) \/
     (exists base,
        functionType ty value = Exponential /\ interpolatable ty = true /\
        convertBase value = Ok base /\
        e = Interpolate ty (exponential base) zoom stops)).
Proof.
  unfold convertCameraFunctionToExpression.
  destruct (negb (isObject value)); [discriminate|].
  destruct (functionType ty value) eqn:Hshape; try discriminate.
  - unfold convertIntervalFunction.
    destruct (convertStops ty value) as [stops| |] eqn:Hstops; simpl; try discriminate.
    intros [= <-].
    destruct (convertStops_returns _ _ _ Hstops) as (sv & Hsv & Hsorted & Hlen).
    exists sv, stops. repeat split; try assumption; try lia. now left.
  - unfold convertExponentialFunction.
    destruct (convertStops ty value) as [stops| |] eqn:Hstops; simpl; try discriminate.
    destruct (convertBase value) as [base| |] eqn:Hbase; simpl; try discriminate.
    pose proof (functionType_Exponential_interpolatable _ _ Hshape) as Hi.
    rewrite (interpolate_no_assert _ _ _ _ Hi). intros [= <-].
    destruct (convertStops_returns _ _ _ Hstops) as (sv & Hsv & Hsorted & Hlen).
    exists sv, stops. repeat split; try assumption; try lia.
    right. now exists base.
Qed.

Lemma sorted_keys {K V W : Type} `{Less K} (m : map K V) (m' : map K W) :
  List.map fst m = List.map fst m' -> sorted m -> sorted m'.
Proof.
  revert m'. induction m as [|[k v] rest IH]; intros [|[k' w] rest']; simpl;
    try discriminate; trivial.
  intros [= <- Hrest] [Hall Hs]. split; [|now apply IH].
  rewrite Forall_forall in *. intros q Hq.
  assert (Hin : In (fst q) (List.map fst rest))
    by (rewrite Hrest; now apply in_map).
  apply in_map_iff in Hin as (p & Hp & Hin). rewrite <- Hp. now apply Hall.
Qed.

Lemma mapM_inner_keys {T : Type} (f : map T Expression -> result Expression)
  (buckets : map float (map T Expression)) (stops : map double Expression) :
  mapM (fun zb => inner <- f (snd zb) ;; Ok ((fst zb : double), inner)) buckets
  = Ok stops ->
  List.map fst buckets = List.map fst stops.
Proof.
  revert stops. induction buckets as [|[z bucket] rest IH]; simpl; intros stops.
  - now intros [= <-].
  - destruct (f bucket) as [inner| |]; simpl; try discriminate.
    match goal with
    | |- context [mapM ?g rest] => destruct (mapM g rest) as [ys| |] eqn:E
    end; simpl; try discriminate.
    intros [= <-]. simpl. now rewrite (IH _ eq_refl).
Qed.

Lemma subscript_not_nil {K V : Type} `{Less K} (k : K) (init : V) (f : V -> V)
  (m : map K V) : subscript k init f m <> [].
Proof.
  destruct m as [|[k' v'] rest]; simpl; [discriminate|].
  destruct (less k k'); [discriminate|]. destruct (less k' k); discriminate.
Qed.

Lemma length_subscript {K V : Type} `{Less K} (k : K) (init : V) (f : V -> V)
  (m : map K V) :
  (List.length m <= List.length (subscript k init f m) <= S (List.length m))%nat.
Proof.
  induction m as [|[k' v'] rest IH]; simpl; [lia|].
  destruct (less k k'); [simpl; lia|].
  destruct (less k' k); simpl; lia.
Qed.

Lemma length_fileAll {T V : Type} `{Less T} (triples : list (float * T * V))
  (map_ : map float (map T V)) :
  (List.length map_ <= List.length (fileAll triples map_)
   <= List.length triples + List.length map_)%nat.
Proof.
  unfold fileAll. revert map_.
  induction triples as [|[[z d] e] rest IH]; intros map_; simpl; [lia|].
  pose proof (IH (subscript z [] (emplace d e) map_)).
  pose proof (length_subscript z [] (emplace d e) map_).
  unfold map in *. lia.
Qed.

Lemma composite_returns {T : Type} `{StrictWeakOrder T} `{Converter T}
  (ty : type.t) (value stopsValue : Convertible)
  (makeInnerExpression :
     type.t -> double -> string -> map T Expression -> result Expression)
  (e : Expression) :
  objectMember value "stops" = Some stopsValue ->
  arrayLength stopsValue <> 0%nat ->
  composite ty value makeInnerExpression = Ok e ->
  exists stops,
    sorted stops /\
    (1 <= List.length stops <= arrayLength stopsValue)%nat /\
    e = if interpolatable ty then Interpolate ty linear zoom stops
        else Step ty zoom stops.
Proof.
  intros Hstops Hlen. unfold composite.
  destruct (objectMember value "property") as [pv|]; [|discriminate].
  destruct (convertBase value) as [base| |]; simpl; try discriminate.
  destruct (toString pv) as [p|]; [|discriminate].
  rewrite Hstops. destruct (negb (isArray stopsValue)); [discriminate|].
  rewrite composite_loop_mapM.
  destruct (mapM (composite_stop ty) (arrayMembers stopsValue)) as [triples| |]
    eqn:Htriples; simpl; try discriminate.
  pose proof (fileAll_grouped triples [] [] groupedByZoom_nil) as Hg.
  simpl in Hg. destruct Hg as (Hsorted & _).
  rewrite composite_stops_mapM; [|exact Hsorted|intros s0 q []].
  match goal with
  | |- context [mapM ?g (fileAll triples [])] =>
      destruct (mapM g (fileAll triples [])) as [stops| |] eqn:Hinner
  end; simpl; try discriminate.
  intros Hwrap. exists stops.
  pose proof (mapM_inner_keys _ _ _ Hinner) as Hkeys.
  pose proof (mapM_length _ _ _ Hinner) as Hcount.
  pose proof (mapM_length _ _ _ Htriples) as Hn.
  rewrite <- arrayLength_members in Hn.
  split; [|split].
  - eapply sorted_keys; [exact Hkeys|exact Hsorted].
  - rewrite Hcount.
    pose proof (length_fileAll triples (@nil (float * map T Expression))) as Hl.
    assert (Hone : (1 <= List.length
                          (fileAll triples (@nil (float * map T Expression))))%nat).
    { destruct triples as [|[[z d] r0] rest]; [simpl in Hn; lia|].
      unfold fileAll. simpl.
      pose proof (length_fileAll rest (subscript z [] (emplace d r0) [])) as Hl'.
      unfold fileAll in Hl'. simpl in Hl'. unfold map, float, double in *. lia. }
    simpl in Hl. unfold map, float, double in *. lia.
  - unfold interpolate, createInterpolate, step in Hwrap.
    destruct (interpolatable ty); now injection Hwrap as <-.
Qed.

(** X9.  A composite function that converts gives an interpolation over
    zoom, linear, for an interpolatable target and a step over zoom
    otherwise; its stops, one per zoom, are in strictly ascending order of
    zoom, at least one and at most as many as the configuration lists. *)
Theorem composite_function_returns (ty : type.t) (value : Convertible)
  (e : Expression) :
  convertCompositeFunctionToExpression ty value = Ok e ->
  exists stopsValue stops,
    objectMember value "stops" = Some stopsValue /\
    sorted stops /\
    (1 <= List.length stops <= arrayLength stopsValue)%nat /\
    e = if interpolatable ty then Interpolate ty linear zoom stops
        else Step ty zoom stops.
Proof.
  unfold convertCompositeFunctionToExpression.
  destruct (negb (isObject value)); [discriminate|].
  destruct (objectMember value "stops") as [sv|] eqn:Hstops; [|discriminate].
  destruct (negb (isArray sv)); [discriminate|].
  destruct (Nat.eqb (arrayLength sv) 0) eqn:Hlen; [discriminate|].
  apply Nat.eqb_neq in Hlen. simpl.
  destruct (negb (isArray (arrayMember sv 0))); [discriminate|].
  destruct (negb (Nat.eqb (arrayLength (arrayMember sv 0)) 2)); [discriminate|].
  destruct (negb (isObject (arrayMember (arrayMember sv 0) 0))); [discriminate|].
  destruct (objectMember (arrayMember (arrayMember sv 0) 0) "value") as [src|];
    [|discriminate].
  intros Hresult. exists sv.
  assert (Hgoal : exists stops,
            sorted stops /\
            (1 <= List.length stops <= arrayLength sv)%nat /\
            e = if interpolatable ty then Interpolate ty linear zoom stops
                else Step ty zoom stops).
  { revert Hresult.
    destruct (toBool src); [|destruct (toNumber src); [|destruct (toString src)]];
      try discriminate;
      destruct (functionType ty value); try discriminate;
      intros Hresult; exact (composite_returns _ _ _ _ _ Hstops Hlen Hresult). }
  destruct Hgoal as (stops & Hs & Hl & He). exists stops. auto.
Qed.


(** *** Composite functions: the first stop that fails *)

(** X11.  Once [composite] has accepted "property" and "base", its first
    loop stops at the first stop that fails, with the error of that stop,
    when the stops before it convert: a stop that is not an array, that has
    not two elements, whose input is not an object, or lacks "zoom", or has
    "zoom" and lacks "value", each with its message; and the failure of the
    zoom, of the inner key or of the output to convert. *)
Theorem composite_first_failing_stop {T : Type} `{Converter T} `{Less T}
  (ty : type.t) (value propertyValue : Convertible) (property : string)
  (base : double)
  (makeInnerExpression :
     type.t -> double -> string -> map T Expression -> result Expression)
  (before : list Convertible) (stopValue : Convertible) (after : list Convertible)
  (parsed : list (float * T * Expression)) :
  objectMember value "property" = Some propertyValue ->
  toString propertyValue = Some property ->
  convertBase value = Ok base ->
  objectMember value "stops" = Some (JArray (before ++ stopValue :: after)%list) ->
  mapM (composite_stop ty) before = Ok parsed ->
  (forall msg, composite_stop ty stopValue = Failed msg ->
     composite ty value makeInnerExpression = Failed msg) /\
  (isArray stopValue = false ->
   composite ty value makeInnerExpression = Failed "function stop must be an array") /\
  (isArray stopValue = true -> arrayLength stopValue <> 2%nat ->
   composite ty value makeInnerExpression
   = Failed "function stop must have two elements") /\
  (forall input output, stopValue = JArray [input; output] ->
     (isObject input = false ->
      composite ty value makeInnerExpression
      = Failed "stop input must be an object") /\
     (isObject input = true -> objectMember input "zoom" = None ->
      composite ty value makeInnerExpression
      = Failed "stop input must specify zoom") /\
     (forall zoomValue, isObject input = true ->
        objectMember input "zoom" = Some zoomValue ->
        objectMember input "value" = None ->
        composite ty value makeInnerExpression
        = Failed "stop input must specify value")).
Proof.
  intros Hprop Hstr Hbase Hstops Hbefore.
  assert (Hfail : forall msg, composite_stop ty stopValue = Failed msg ->
            composite ty value makeInnerExpression = Failed msg).
  { intros msg Hmsg. unfold composite.
    rewrite Hprop, Hbase. simpl. rewrite Hstr, Hstops. simpl.
    rewrite composite_loop_mapM.
    now rewrite (mapM_first_failure _ _ _ after _ _ Hbefore Hmsg). }
  split; [exact Hfail|]. split; [|split].
  - intros Hna. apply Hfail. unfold composite_stop. now rewrite Hna.
  - intros Ha Hlen. apply Hfail. unfold composite_stop. rewrite Ha. simpl.
    apply Nat.eqb_neq in Hlen. now rewrite Hlen.
  - intros input output ->. split; [|split].
    + intros Hobj. apply Hfail. unfold composite_stop. simpl. now rewrite Hobj.
    + intros Hobj Hzoom. apply Hfail. unfold composite_stop. simpl.
      now rewrite Hobj, Hzoom.
    + intros zoomValue Hobj Hzoom Hvalue. apply Hfail. unfold composite_stop. simpl.
      now rewrite Hobj, Hzoom, Hvalue.
Qed.

End Conversion.

(** ** Concrete runs *)

Lemma functionType_classifies_witness :
  functionType type.String (JObject [("type", JString "exponential")]) = Invalid /\
  functionType type.Number (JObject []) = Exponential.
Proof.
  split.
  - destruct (functionType_classifies type.String
                (JObject [("type", JString "exponential")]) eq_refl)
      as (_ & _ & Hsome).
    destruct (Hsome (JString "exponential") eq_refl) as (_ & Hexp & _).
    exact (Hexp eq_refl).
  - destruct (functionType_classifies type.Number (JObject []) eq_refl)
      as (_ & Hnone & _).
    exact (Hnone eq_refl).
Defined.

Lemma convertBase_default_and_use_witness :
  convertCameraFunctionToExpression noColor type.Number
    (JObject [("base", JNumber 2);
              ("stops", JArray [JArray [JNumber 0; JNumber 1]])])
  = Ok (Interpolate type.Number (exponential 2) zoom [(0, literal (VDouble 1))]).
Proof.
  destruct (convertBase_default_and_use noColor type.Number
              (JObject [("base", JNumber 2);
                        ("stops", JArray [JArray [JNumber 0; JNumber 1]])]))
    as (_ & _ & _ & Huse & _).
  apply Huse; reflexivity.
Defined.

Lemma convertStops_failures_witness :
  convertStops noColor type.String
    (JObject [("stops", JArray [JArray [JNumber 1; JString "a"]; JNumber 5;
                               JArray [JNumber 2; JString "b"]])])
  = Failed "function stop must be an array".
Proof.
  destruct (convertStops_failures noColor type.String) as [Hstops _].
  destruct (Hstops (JObject [("stops", JArray [JArray [JNumber 1; JString "a"];
                                              JNumber 5;
                                              JArray [JNumber 2; JString "b"]])]))
    as (_ & Hsome).
  destruct (Hsome _ eq_refl) as (_ & _ & Hstop).
  destruct (Hstop [JArray [JNumber 1; JString "a"]] (JNumber 5)
              [JArray [JNumber 2; JString "b"]]
              [(1, literal (VString "a"))] eq_refl eq_refl eq_refl)
    as (Hshape & _).
  exact (Hshape eq_refl).
Defined.

Lemma convertCameraFunctionToExpression_unsupported_witness :
  convertCameraFunctionToExpression noColor type.Number (JNumber 3)
  = Failed "function must be an object" /\
  convertCameraFunctionToExpression noColor type.Number
    (JObject [("type", JString "categorical");
              ("stops", JArray [JArray [JNumber 0; JNumber 1]])])
  = Failed "unsupported function type".
Proof.
  split.
  - apply (convertCameraFunctionToExpression_unsupported noColor). reflexivity.
  - apply (convertCameraFunctionToExpression_unsupported noColor).
    + reflexivity.
    + left. reflexivity.
Defined.

Lemma convertCategoricalFunction_infers_domain_witness :
  convertCategoricalFunction noColor type.String
    (JObject [("stops", JArray [JArray [JNull; JString "A"]])]) "p"
  = Failed "stop domain value must be a number, string, or boolean".
Proof.
  destruct (convertCategoricalFunction_infers_domain noColor type.String "p")
    as [Hinfer _].
  destruct (Hinfer (JObject [("stops", JArray [JArray [JNull; JString "A"]])])
              JNull (JString "A") [] eq_refl) as (_ & _ & _ & Hnone).
  exact (Hnone eq_refl eq_refl eq_refl).
Defined.

Lemma stops_first_wins_witness :
  exists stops,
    convertStops noColor type.String
      (JObject [("stops", JArray [JArray [JNumber 1; JString "a"];
                                 JArray [JNumber 1; JString "b"]])])
    = Ok stops /\
    sorted stops /\
    FirstWins (K := double)
      [(1, literal (VString "a")); (1, literal (VString "b"))] stops.
Proof.
  destruct (stops_first_wins noColor type.String) as [Hstops _].
  apply (Hstops (JObject [("stops", JArray [JArray [JNumber 1; JString "a"];
                                           JArray [JNumber 1; JString "b"]])])
                (JArray [JArray [JNumber 1; JString "a"];
                         JArray [JNumber 1; JString "b"]])).
  - reflexivity.
  - reflexivity.
  - simpl. lia.
  - reflexivity.
Defined.

Lemma composite_groups_by_zoom_witness :
  let stop z v out :=
    JArray [JObject [("zoom", JNumber z); ("value", JNumber v)]; JNumber out] in
  let value :=
    JObject [("property", JString "p");
             ("stops", JArray [stop 0 0 1; stop 0 10 2; stop 5 0 3])] in
  let lit x := literal (VDouble x) in
  exists buckets,
    GroupedByZoom (T := double)
      [(0, 0, lit 1); (0, 10, lit 2); (5, 0, lit 3)] buckets /\
    composite noColor type.Number value inner_exponential
    = stops <- mapM (fun zb =>
                       inner <- inner_exponential type.Number 1 "p" (snd zb) ;;
                       Ok ((fst zb : double), inner)) buckets ;;
      Ok (if interpolatable type.Number
          then Interpolate type.Number linear zoom stops
          else Step type.Number zoom stops).
Proof.
  intros stop value lit.
  destruct (composite_groups_by_zoom noColor) as [Hgroups _].
  apply (Hgroups double _ _ _ type.Number value inner_exponential
           (JString "p") "p" 1
           (JArray [stop 0 0 1; stop 0 10 2; stop 5 0 3])); reflexivity.
Defined.

Lemma convertLiteral_unused_types_witness :
  convertLiteral noColor type.Null (JNumber 1) = AssertionFailed /\
  convertLiteral noColor (type.Array type.Boolean (Some 1%nat)) (JArray [JBool true])
  = AssertionFailed.
Proof.
  split.
  - apply (convertLiteral_unused_types noColor). left. reflexivity.
  - destruct (convertLiteral_unused_types noColor
                (type.Array type.Boolean (Some 1%nat)) (JArray [JBool true]))
      as [_ Harray].
    destruct (Harray type.Boolean (Some 1%nat) eq_refl) as [Hassert _].
    + discriminate.
    + discriminate.
    + apply Hassert.
      * reflexivity.
      * intros n E. injection E as <-. reflexivity.
Defined.

(** C5, as stated, fails: an Array target whose item type is neither Number
    nor String reports a value that is not an array through the error. *)
Lemma convertLiteral_array_of_booleans_reports :
  convertLiteral noColor (type.Array type.Boolean None) (JNumber 1)
  = Failed "value must be an array" /\
  convertLiteral noColor (type.Array type.Boolean None) (JNumber 1)
  <> AssertionFailed.
Proof. split; [reflexivity|discriminate]. Defined.

Lemma categorical_bool_case_witness :
  convertCategoricalFunction noColor type.String
    (JObject [("stops", JArray [JArray [JBool true; JString "A"];
                               JArray [JBool true; JString "B"]])]) "p"
  = Ok (Case type.String
          [(get (literal (VString "p")), literal (VString "A"))]
          (error "replaced with default")).
Proof.
  destruct (categorical_bool_case noColor type.String "p") as (_ & Hcase & _).
  apply (Hcase (JObject [("stops", JArray [JArray [JBool true; JString "A"];
                                          JArray [JBool true; JString "B"]])])
               (JBool true) (JString "A") [JArray [JBool true; JString "B"]] true
               [(true, literal (VString "A")); (true, literal (VString "B"))]);
    reflexivity.
Defined.

Lemma composite_validates_base_witness :
  let stop := JArray [JObject [("zoom", JNumber 0); ("value", JString "x")];
                      JNumber 1] in
  convertCompositeFunctionToExpression noColor type.Number
    (JObject [("type", JString "categorical"); ("property", JString "p");
              ("base", JString "two"); ("stops", JArray [stop])])
  = Failed "function base must be a number".
Proof.
  intros stop.
  destruct (composite_validates_base noColor type.Number
              (JObject [("type", JString "categorical"); ("property", JString "p");
                        ("base", JString "two"); ("stops", JArray [stop])])
              (JString "two") eq_refl eq_refl) as [_ Hentry].
  apply (Hentry (JObject [("zoom", JNumber 0); ("value", JString "x")])
                (JNumber 1) [] (JString "x") (JString "p")); reflexivity.
Defined.

(** C10, as stated, fails: with a "base" that is no number, a shape that the
    composite converter does not support, and a missing "property", are
    reported first. *)
Lemma composite_base_not_reported :
  let stop := JArray [JObject [("zoom", JNumber 0); ("value", JNumber 0)];
                      JNumber 1] in
  let identity :=
    JObject [("type", JString "identity"); ("property", JString "p");
             ("base", JString "two"); ("stops", JArray [stop])] in
  let unnamed :=
    JObject [("type", JString "interval");
             ("base", JString "two"); ("stops", JArray [stop])] in
  (objectMember identity "base" = Some (JString "two") /\
   toNumber (JString "two") = None /\
   convertCompositeFunctionToExpression noColor type.Number identity
   = Failed "unsupported function type") /\
  (objectMember unnamed "base" = Some (JString "two") /\
   convertCompositeFunctionToExpression noColor type.Number unnamed
   = Failed "function must specify property").
Proof. repeat split. Defined.

(** ** Concrete runs of the further properties *)

Lemma converters_assert_nothing_witness :
  convertSourceFunctionToExpression noColor (type.Array type.Number (Some 2%nat))
    (JObject [("type", JString "identity"); ("property", JString "size")])
  <> AssertionFailed.
Proof.
  apply (converters_assert_nothing noColor (type.Array type.Number (Some 2%nat))).
  reflexivity.
Defined.

Lemma stops_order_irrelevant_witness :
  let a := JArray [JNumber 1; JString "a"] in
  let b := JArray [JNumber 2; JString "b"] in
  convertStops noColor type.String (JObject [("stops", JArray [b; a])])
  = convertStops noColor type.String (JObject [("stops", JArray [a; b])]).
Proof.
  intros a b.
  destruct (stops_order_irrelevant noColor type.String
              (JObject [("stops", JArray [a; b])])
              (JObject [("stops", JArray [b; a])])
              [a; b] [b; a] eq_refl eq_refl (perm_swap b a []))
    as [Hstops _].
  apply (Hstops [(1, literal (VString "a")); (2, literal (VString "b"))]).
  - reflexivity.
  - simpl. repeat split; repeat constructor.
Defined.

Lemma convertLiteral_array_witness :
  convertLiteral noColor (type.Array type.Number (Some 2%nat))
    (JArray [JNumber 3; JNumber 4])
  = Ok (literal (VVector [VDouble 3; VDouble 4])).
Proof.
  destruct (convertLiteral_array noColor (Some 2%nat)
              (JArray [JNumber 3; JNumber 4]) eq_refl)
    as (Hnumbers & _).
  - intros n E. injection E as <-. reflexivity.
  - apply (Hnumbers [3; 4]). repeat constructor.
Defined.

Lemma source_function_as_camera_witness :
  let value :=
    JObject [("type", JString "interval"); ("property", JString "p");
             ("stops", JArray [JArray [JNumber 0; JString "a"]])] in
  convertSourceFunctionToExpression noColor type.String value
  = e <- convertCameraFunctionToExpression noColor type.String value ;;
    Ok (withInput (number (get (literal (VString "p")))) e).
Proof.
  intros value.
  apply (source_function_as_camera noColor type.String value (JString "p") "p").
  - reflexivity.
  - reflexivity.
  - reflexivity.
  - left. reflexivity.
Defined.

Lemma identity_function_reads_property_witness :
  convertSourceFunctionToExpression noColor (type.Array type.Number (Some 2%nat))
    (JObject [("type", JString "identity"); ("property", JString "size")])
  = Ok (ArrayAssertion (type.Array type.Number (Some 2%nat))
          (get (literal (VString "size")))).
Proof.
  destruct (identity_function_reads_property noColor
              (type.Array type.Number (Some 2%nat))
              (JObject [("type", JString "identity"); ("property", JString "size")])
              (JString "size") (JString "identity") "size"
              eq_refl eq_refl eq_refl eq_refl eq_refl)
    as (_ & _ & _ & _ & Harray).
  apply Harray. reflexivity.
Defined.

Lemma composite_unsupported_shapes_witness :
  let input := JObject [("zoom", JNumber 0); ("value", JString "x")] in
  convertCompositeFunctionToExpression noColor type.Number
    (JObject [("property", JString "p");
              ("stops", JArray [JArray [input; JNumber 1]])])
  = Failed "unsupported function type".
Proof.
  intros input.
  destruct (composite_unsupported_shapes noColor type.Number
              (JObject [("property", JString "p");
                        ("stops", JArray [JArray [input; JNumber 1]])])
              input (JNumber 1) (JString "x") []
              eq_refl eq_refl eq_refl eq_refl)
    as (_ & _ & Hdefault).
  apply Hdefault.
  - reflexivity.
  - right. split; [reflexivity|discriminate].
Defined.

Lemma categorical_keys_share_domain_witness :
  convertCategoricalFunction noColor type.String
    (JObject [("stops", JArray [JArray [JBool true; JString "A"];
                               JArray [JNumber 1; JString "B"]])]) "p"
  = Failed "value must be a boolean".
Proof.
  destruct (categorical_keys_share_domain noColor type.String "p"
              (JObject [("stops", JArray [JArray [JBool true; JString "A"];
                                         JArray [JNumber 1; JString "B"]])])
              (JBool true) (JString "A") [] (JNumber 1) (JString "B") []
              "value must be a boolean" eq_refl)
    as (Hbool & _).
  apply (Hbool true [(true, literal (VString "A"))]); reflexivity.
Defined.

Lemma camera_function_returns_witness :
  exists stopsValue stops,
    objectMember
      (JObject [("stops", JArray [JArray [JNumber 5; JString "b"];
                                 JArray [JNumber 0; JString "a"]])]) "stops"
    = Some stopsValue /\
    sorted stops /\
    (1 <= List.length stops <= arrayLength stopsValue)%nat /\
    ((functionType type.String
        (JObject [("stops", JArray [JArray [JNumber 5; JString "b"];
                                   JArray [JNumber 0; JString "a"]])])
      = Interval /\
      Step type.String zoom
        [(0, literal (VString "a")); (5, literal (VString "b"))]
      = Step type.String zoom stops) \/
     (exists base,
        functionType type.String
          (JObject [("stops", JArray [JArray [JNumber 5; JString "b"];
                                     JArray [JNumber 0; JString "a"]])])
        = Exponential /\
        interpolatable type.String = true /\
        convertBase
          (JObject [("stops", JArray [JArray [JNumber 5; JString "b"];
                                     JArray [JNumber 0; JString "a"]])])
        = Ok base /\
        Step type.String zoom
          [(0, literal (VString "a")); (5, literal (VString "b"))]
        = Interpolate type.String (exponential base) zoom stops)).
Proof.
  apply (camera_function_returns noColor type.String). reflexivity.
Defined.

Lemma composite_function_returns_witness :
  let input z := JObject [("zoom", JNumber z); ("value", JNumber 0)] in
  let value :=
    JObject [("property", JString "p");
             ("stops", JArray [JArray [input 5; JNumber 3];
                               JArray [input 0; JNumber 1]])] in
  let inner x := Interpolate type.Number (exponential 1)
                   (number (get (literal (VString "p"))))
                   [(0, literal (VDouble x))] in
  exists stopsValue stops,
    objectMember value "stops" = Some stopsValue /\
    sorted stops /\
    (1 <= List.length stops <= arrayLength stopsValue)%nat /\
    Interpolate type.Number linear zoom [(0, inner 1); (5, inner 3)]
    = if interpolatable type.Number
      then Interpolate type.Number linear zoom stops
      else Step type.Number zoom stops.
Proof.
  intros input value inner.
  apply (composite_function_returns noColor type.Number value). reflexivity.
Defined.


Lemma composite_first_failing_stop_witness :
  let good := JArray [JObject [("zoom", JNumber 0); ("value", JNumber 0)];
                      JNumber 1] in
  let bad := JArray [JObject [("value", JNumber 0)]; JNumber 2] in
  composite (T := double) noColor type.Number
    (JObject [("property", JString "p"); ("stops", JArray [good; bad; good])])
    inner_interval
  = Failed "stop input must specify zoom".
Proof.
  intros good bad.
  destruct (composite_first_failing_stop (T := double) noColor type.Number
              (JObject [("property", JString "p");
                        ("stops", JArray [good; bad; good])])
              (JString "p") "p" 1 inner_interval [good] bad [good]
              [(0, 0, literal (VDouble 1))])
    as (_ & _ & _ & Hinput); [reflexivity..|].
  destruct (Hinput (JObject [("value", JNumber 0)]) (JNumber 2) eq_refl)
    as (_ & Hzoom & _).
  apply Hzoom; reflexivity.
Defined.
